(** * Tetris engine (src/tetris.py): a shallow embedding and its properties

    The development follows the layout of the Python module: constants and
    the tetromino tables, the [Piece] class, the grid helpers
    ([create_grid], [valid_space], [lock_piece], [clear_rows],
    [check_lost]), the rotation with wall kicks, and the game logic of the
    main loop (gravity, the key blocks, hard drop, lock resolution,
    scoring, the loss check), frame by frame.

    Python integers are [Z].  A Python [list] is a Rocq [list]; indexing is
    fallible and wraps negative indices the way Python does.  The [dict] of
    locked positions is an association list with unique keys kept in
    insertion order, since [clear_rows] iterates over a stable sort of its
    keys.  Exceptions are results of an error monad.

    Line 98 of the source holds the header of [class Piece] and its
    [__init__] on one physical line, joined by an escaped newline; the
    class is read as the two lines that were meant. *)

From Stdlib Require Import ZArith List Bool Lia Permutation Sorted Finite.
Import ListNotations.
Open Scope Z_scope.

(** ** Exceptions *)

Inductive exn : Type := IndexError | KeyError.

Inductive res (A : Type) : Type :=
| Ok (a : A)
| Raise (e : exn).
Arguments Ok {A} a.
Arguments Raise {A} e.

Definition bind {A B : Type} (m : res A) (f : A -> res B) : res B :=
  match m with
  | Ok a => f a
  | Raise e => Raise e
  end.

Notation "x <- m ;; k" := (bind m (fun x => k))
  (at level 61, m at next level, right associativity).
Notation "' pat <- m ;; k" := (bind m (fun x => match x with pat => k end))
  (at level 61, pat pattern, m at next level, right associativity).

(** ** Python lists *)

Module PyList.

(** [range(n)] *)
Definition range (n : Z) : list Z := map Z.of_nat (seq 0 (Z.to_nat n)).

Definition len {A : Type} (l : list A) : Z := Z.of_nat (length l).

(** [l[i]]: a negative index counts from the end, anything outside
    [-len, len) raises [IndexError]. *)
Definition getitem {A : Type} (l : list A) (i : Z) : res A :=
  let j := if i <? 0 then i + len l else i in
  if (0 <=? j) && (j <? len l)
  then match nth_error l (Z.to_nat j) with
       | Some a => Ok a
       | None => Raise IndexError
       end
  else Raise IndexError.

Fixpoint update {A : Type} (l : list A) (n : nat) (a : A) : list A :=
  match l, n with
  | [], _ => []
  | _ :: t, O => a :: t
  | h :: t, S n' => h :: update t n' a
  end.

(** [l[i] = a] *)
Definition setitem {A : Type} (l : list A) (i : Z) (a : A) : res (list A) :=
  let j := if i <? 0 then i + len l else i in
  if (0 <=? j) && (j <? len l)
  then Ok (update l (Z.to_nat j) a)
  else Raise IndexError.

(** A list comprehension with a fallible condition. *)
Fixpoint filterM {A : Type} (f : A -> res bool) (l : list A) : res (list A) :=
  match l with
  | [] => Ok []
  | a :: t =>
      b <- f a ;;
      r <- filterM f t ;;
      Ok (if b then a :: r else r)
  end.

End PyList.

(** ** Game constants *)

Definition GRID_WIDTH : Z := 10.
Definition GRID_HEIGHT : Z := 20.

Definition Color : Type := (Z * Z * Z)%type.

Definition BLACK : Color := (0, 0, 0).

Definition color_eqb (a b : Color) : bool :=
  let '(r1, g1, b1) := a in
  let '(r2, g2, b2) := b in
  (r1 =? r2) && (g1 =? g2) && (b1 =? b2).

Definition COLOR_I : Color := (0, 240, 240).
Definition COLOR_O : Color := (240, 240, 0).
Definition COLOR_T : Color := (160, 0, 240).
Definition COLOR_S : Color := (0, 240, 0).
Definition COLOR_Z : Color := (240, 0, 0).
Definition COLOR_J : Color := (0, 0, 240).
Definition COLOR_L : Color := (240, 160, 0).

(** ** Tetromino definitions

    Each shape is a list of four rotations; a rotation is a list of
    [(dx, dy)] offsets from the pivot.  The source calls the tables [I],
    [O], [T], [S], [Z], [J], [L]; several of those names are taken in Rocq,
    so the tables carry the prefix [SHAPE_]. *)

Definition Cell : Type := (Z * Z)%type.

Definition SHAPE_I : list (list Cell) :=
  [ [(0, 0); (-1, 0); (1, 0); (2, 0)];
    [(0, 0); (0, -1); (0, 1); (0, 2)];
    [(0, 0); (-1, 0); (1, 0); (2, 0)];
    [(0, 0); (0, -1); (0, 1); (0, 2)] ].

Definition SHAPE_O : list (list Cell) :=
  [ [(0, 0); (1, 0); (0, 1); (1, 1)];
    [(0, 0); (1, 0); (0, 1); (1, 1)];
    [(0, 0); (1, 0); (0, 1); (1, 1)];
    [(0, 0); (1, 0); (0, 1); (1, 1)] ].

Definition SHAPE_T : list (list Cell) :=
  [ [(0, 0); (-1, 0); (1, 0); (0, -1)];
    [(0, 0); (0, -1); (0, 1); (1, 0)];
    [(0, 0); (-1, 0); (1, 0); (0, 1)];
    [(0, 0); (0, -1); (0, 1); (-1, 0)] ].

Definition SHAPE_S : list (list Cell) :=
  [ [(0, 0); (-1, 0); (0, -1); (1, -1)];
    [(0, 0); (0, -1); (1, 0); (1, 1)];
    [(0, 0); (-1, 0); (0, -1); (1, -1)];
    [(0, 0); (0, -1); (1, 0); (1, 1)] ].

Definition SHAPE_Z : list (list Cell) :=
  [ [(0, 0); (1, 0); (0, -1); (-1, -1)];
    [(0, 0); (0, -1); (-1, 0); (-1, 1)];
    [(0, 0); (1, 0); (0, -1); (-1, -1)];
    [(0, 0); (0, -1); (-1, 0); (-1, 1)] ].

Definition SHAPE_J : list (list Cell) :=
  [ [(0, 0); (-1, 0); (1, 0); (-1, -1)];
    [(0, 0); (0, -1); (0, 1); (1, -1)];
    [(0, 0); (-1, 0); (1, 0); (1, 1)];
    [(0, 0); (0, -1); (0, 1); (-1, 1)] ].

Definition SHAPE_L : list (list Cell) :=
  [ [(0, 0); (-1, 0); (1, 0); (1, -1)];
    [(0, 0); (0, -1); (0, 1); (1, 1)];
    [(0, 0); (-1, 0); (1, 0); (-1, 1)];
    [(0, 0); (0, -1); (0, 1); (-1, -1)] ].

Definition SHAPES : list (list (list Cell)) :=
  [SHAPE_I; SHAPE_O; SHAPE_T; SHAPE_S; SHAPE_Z; SHAPE_J; SHAPE_L].

Definition SHAPE_COLORS : list Color :=
  [COLOR_I; COLOR_O; COLOR_T; COLOR_S; COLOR_Z; COLOR_J; COLOR_L].

(** The seven values [random.randrange(len(SHAPES))] can take. *)
Inductive ShapeIndex : Type := Idx0 | Idx1 | Idx2 | Idx3 | Idx4 | Idx5 | Idx6.

Definition index_nat (i : ShapeIndex) : nat :=
  match i with
  | Idx0 => 0 | Idx1 => 1 | Idx2 => 2 | Idx3 => 3
  | Idx4 => 4 | Idx5 => 5 | Idx6 => 6
  end%nat.

(** ** class Piece

    [shape] and [color] are set once by [__init__] from [shape_index] and
    never assigned again, so they are functions of the index here. *)

Record Piece : Type := mkPiece {
  piece_x : Z;
  piece_y : Z;
  piece_shape_index : ShapeIndex;
  piece_rotation : Z
}.

(** [Piece(x, y, shape_index)] *)
Definition Piece_init (x y : Z) (shape_index : ShapeIndex) : Piece :=
  mkPiece x y shape_index 0.

Definition piece_shape (p : Piece) : list (list Cell) :=
  nth (index_nat (piece_shape_index p)) SHAPES [].

Definition piece_color (p : Piece) : Color :=
  nth (index_nat (piece_shape_index p)) SHAPE_COLORS BLACK.

(** Python's [%] with a positive divisor is [Z.modulo]; the index
    [rotation % 4] is always one of the four states of the table. *)
Definition get_cells (p : Piece) : list Cell :=
  let offsets := nth (Z.to_nat (piece_rotation p mod 4)) (piece_shape p) [] in
  map (fun '(dx, dy) => (piece_x p + dx, piece_y p + dy)) offsets.

Definition set_x (p : Piece) (x : Z) : Piece :=
  mkPiece x (piece_y p) (piece_shape_index p) (piece_rotation p).
Definition set_y (p : Piece) (y : Z) : Piece :=
  mkPiece (piece_x p) y (piece_shape_index p) (piece_rotation p).
Definition set_rotation (p : Piece) (r : Z) : Piece :=
  mkPiece (piece_x p) (piece_y p) (piece_shape_index p) r.

(** ** The dict of locked positions *)

Definition cell_eqb (a b : Cell) : bool :=
  (fst a =? fst b) && (snd a =? snd b).

Module PyDict.

Definition t : Type := list (Cell * Color).

Definition keys (d : t) : list Cell := map fst d.
Definition items (d : t) : list (Cell * Color) := d.

Fixpoint get (k : Cell) (d : t) : option Color :=
  match d with
  | [] => None
  | (k', v) :: rest => if cell_eqb k k' then Some v else get k rest
  end.

(** [d[k] = v]: an existing key keeps its place, a new key goes last. *)
Fixpoint set (k : Cell) (v : Color) (d : t) : t :=
  match d with
  | [] => [(k, v)]
  | (k', v') :: rest =>
      if cell_eqb k k' then (k', v) :: rest else (k', v') :: set k v rest
  end.

Fixpoint remove (k : Cell) (d : t) : t :=
  match d with
  | [] => []
  | (k', v') :: rest =>
      if cell_eqb k k' then rest else (k', v') :: remove k rest
  end.

(** [del d[k]] *)
Definition delitem (k : Cell) (d : t) : res t :=
  match get k d with
  | Some _ => Ok (remove k d)
  | None => Raise KeyError
  end.

(** [d.pop(k)] *)
Definition pop (k : Cell) (d : t) : res (Color * t) :=
  match get k d with
  | Some v => Ok (v, remove k d)
  | None => Raise KeyError
  end.

(** Keys of a dict are pairwise distinct. *)
Definition wf (d : t) : Prop := NoDup (keys d).

End PyDict.

(** ** Grid helpers *)

Definition Grid : Type := list (list Color).

Definition in_range (x y : Z) : bool :=
  (0 <=? y) && (y <? GRID_HEIGHT) && (0 <=? x) && (x <? GRID_WIDTH).

(** [grid[y][x] = color] *)
Definition grid_set (grid : Grid) (x y : Z) (color : Color) : res Grid :=
  row <- PyList.getitem grid y ;;
  row' <- PyList.setitem row x color ;;
  PyList.setitem grid y row'.

(** [grid[y][x]] *)
Definition grid_get (grid : Grid) (x y : Z) : res Color :=
  row <- PyList.getitem grid y ;;
  PyList.getitem row x.

Definition empty_grid : Grid :=
  repeat (repeat BLACK (Z.to_nat GRID_WIDTH)) (Z.to_nat GRID_HEIGHT).

Fixpoint create_grid_loop (items : list (Cell * Color)) (grid : Grid) : res Grid :=
  match items with
  | [] => Ok grid
  | ((x, y), color) :: rest =>
      if in_range x y
      then grid' <- grid_set grid x y color ;; create_grid_loop rest grid'
      else create_grid_loop rest grid
  end.

Definition create_grid (locked : PyDict.t) : res Grid :=
  create_grid_loop (PyDict.items locked) empty_grid.

(** [[(x, y) for y in range(GRID_HEIGHT) for x in range(GRID_WIDTH)]] *)
Definition all_positions : list Cell :=
  flat_map (fun y => map (fun x => (x, y)) (PyList.range GRID_WIDTH))
           (PyList.range GRID_HEIGHT).

Definition accepted (grid : Grid) : res (list Cell) :=
  PyList.filterM
    (fun '(x, y) => c <- grid_get grid x y ;; Ok (color_eqb c BLACK))
    all_positions.

Definition cell_mem (c : Cell) (l : list Cell) : bool := existsb (cell_eqb c) l.

Fixpoint valid_space_loop (acc : list Cell) (cells : list Cell) : bool :=
  match cells with
  | [] => true
  | (x, y) :: rest =>
      if (x <? 0) || (x >=? GRID_WIDTH) || (y >=? GRID_HEIGHT) then false
      else if (y >=? 0) && negb (cell_mem (x, y) acc) then false
      else valid_space_loop acc rest
  end.

Definition valid_space (piece : Piece) (grid : Grid) : res bool :=
  acc <- accepted grid ;;
  Ok (valid_space_loop acc (get_cells piece)).

Definition in_bounds (piece : Piece) : bool :=
  forallb (fun '(x, y) => negb ((x <? 0) || (x >=? GRID_WIDTH) || (y >=? GRID_HEIGHT)))
          (get_cells piece).

Fixpoint lock_piece_loop (cells : list Cell) (color : Color) (locked : PyDict.t) : PyDict.t :=
  match cells with
  | [] => locked
  | pos :: rest => lock_piece_loop rest color (PyDict.set pos color locked)
  end.

Definition lock_piece (piece : Piece) (locked : PyDict.t) : PyDict.t :=
  lock_piece_loop (get_cells piece) (piece_color piece) locked.

(** ** clear_rows *)

(** [BLACK not in row] *)
Definition row_full (row : list Color) : bool :=
  negb (existsb (fun c => color_eqb BLACK c) row).

Definition rows_to_clear (grid : Grid) : res (list Z) :=
  PyList.filterM
    (fun y => row <- PyList.getitem grid y ;; Ok (row_full row))
    (PyList.range GRID_HEIGHT).

(** [try: del locked[(x, y)]  except KeyError: pass] *)
Definition del_if_present (k : Cell) (locked : PyDict.t) : res PyDict.t :=
  match PyDict.delitem k locked with
  | Ok locked' => Ok locked'
  | Raise KeyError => Ok locked
  | Raise e => Raise e
  end.

Fixpoint delete_row_loop (xs : list Z) (y : Z) (locked : PyDict.t) : res PyDict.t :=
  match xs with
  | [] => Ok locked
  | x :: rest =>
      locked' <- del_if_present (x, y) locked ;;
      delete_row_loop rest y locked'
  end.

Fixpoint delete_rows_loop (rows : list Z) (locked : PyDict.t) : res PyDict.t :=
  match rows with
  | [] => Ok locked
  | y :: rest =>
      locked' <- delete_row_loop (PyList.range GRID_WIDTH) y locked ;;
      delete_rows_loop rest locked'
  end.

(** [sorted(keys, key=lambda p: p[1], reverse=True)].  Python's sort is
    stable, also with [reverse=True]: keys come out by descending [y], and
    keys with the same [y] stay in the order they had.  This insertion sort
    produces that list. *)
Fixpoint insert_desc (k : Cell) (l : list Cell) : list Cell :=
  match l with
  | [] => [k]
  | h :: t => if snd k <? snd h then h :: insert_desc k t else k :: h :: t
  end.

Definition sorted_by_y_desc (l : list Cell) : list Cell :=
  fold_right insert_desc [] l.

(** [sum(1 for row in rows_to_clear if y < row)] *)
Definition shift_of (rows : list Z) (y : Z) : Z :=
  PyList.len (filter (fun row => y <? row) rows).

(** The unused local [rows_cleared] of the source is left out: it is
    assigned in the loop and never read. *)
Fixpoint move_loop (rows : list Z) (ks : list Cell) (locked : PyDict.t) : res PyDict.t :=
  match ks with
  | [] => Ok locked
  | (x, y) :: rest =>
      let shift := shift_of rows y in
      if shift >? 0
      then '(color, locked1) <- PyDict.pop (x, y) locked ;;
           move_loop rows rest (PyDict.set (x, y + shift) color locked1)
      else move_loop rows rest locked
  end.

Definition clear_rows (grid : Grid) (locked : PyDict.t) : res (Z * PyDict.t) :=
  rows <- rows_to_clear grid ;;
  match rows with
  | [] => Ok (0, locked)
  | _ =>
      locked1 <- delete_rows_loop rows locked ;;
      locked2 <- move_loop rows (sorted_by_y_desc (PyDict.keys locked1)) locked1 ;;
      Ok (PyList.len rows, locked2)
  end.

(** ** check_lost *)

Fixpoint check_lost_loop (ks : list Cell) : bool :=
  match ks with
  | [] => false
  | (_, y) :: rest => if y <? 1 then true else check_lost_loop rest
  end.

Definition check_lost (locked : PyDict.t) : bool :=
  check_lost_loop (PyDict.keys locked).

(** ** try_rotate_with_kicks

    The piece is mutated in place by the source; here the piece after the
    call is returned next to the boolean. *)

Definition kicks : list Z := [1; -1; 2; -2].

Fixpoint kick_loop (ks : list Z) (piece : Piece) (grid : Grid) : res (bool * Piece) :=
  match ks with
  | [] => Ok (false, piece)
  | dx :: rest =>
      let old_x := piece_x piece in
      let piece1 := set_x piece (piece_x piece + dx) in
      v <- valid_space piece1 grid ;;
      if v then Ok (true, piece1)
      else kick_loop rest (set_x piece1 old_x) grid
  end.

Definition try_rotate_with_kicks (piece : Piece) (grid : Grid) : res (bool * Piece) :=
  let prev_rot := piece_rotation piece in
  let piece1 := set_rotation piece ((piece_rotation piece + 1) mod 4) in
  v <- valid_space piece1 grid ;;
  if v then Ok (true, piece1)
  else
    '(found, piece2) <- kick_loop kicks piece1 grid ;;
    if found then Ok (true, piece2)
    else Ok (false, set_rotation piece2 prev_rot).

(** ** Main loop: hard drop, frame grid, lock resolution *)

(** [valid_space(current_piece, create_grid(locked_positions))] *)
Definition valid_on (piece : Piece) (locked : PyDict.t) : res bool :=
  grid <- create_grid locked ;;
  valid_space piece grid.

(** [while valid_space(...): current_piece.y += 1].  [None] is an
    exhausted iteration budget, not a result of the program. *)
Fixpoint hard_drop_loop (fuel : nat) (piece : Piece) (locked : PyDict.t)
  : option (res Piece) :=
  match fuel with
  | O => None
  | S fuel' =>
      match valid_on piece locked with
      | Raise e => Some (Raise e)
      | Ok true => hard_drop_loop fuel' (set_y piece (piece_y piece + 1)) locked
      | Ok false => Some (Ok piece)
      end
  end.

(** The loop followed by [current_piece.y -= 1]. *)
Definition hard_drop (fuel : nat) (piece : Piece) (locked : PyDict.t)
  : option (res Piece) :=
  match hard_drop_loop fuel piece locked with
  | None => None
  | Some (Raise e) => Some (Raise e)
  | Some (Ok piece') => Some (Ok (set_y piece' (piece_y piece' - 1)))
  end.

(** The grid of a frame: the locked cells with the current piece drawn
    over them. *)
Fixpoint draw_piece_loop (cells : list Cell) (color : Color) (grid : Grid) : res Grid :=
  match cells with
  | [] => Ok grid
  | (x, y) :: rest =>
      if (y >=? 0) && ((0 <=? x) && (x <? GRID_WIDTH) && ((0 <=? y) && (y <? GRID_HEIGHT)))
      then grid' <- grid_set grid x y color ;; draw_piece_loop rest color grid'
      else draw_piece_loop rest color grid
  end.

Definition frame_grid (piece : Piece) (locked : PyDict.t) : res Grid :=
  grid <- create_grid locked ;;
  draw_piece_loop (get_cells piece) (piece_color piece) grid.

(** The [if cleared == 1: ... elif cleared >= 4: ...] chain. *)
Definition update_score (cleared score : Z) : Z :=
  if cleared =? 1 then score + 100
  else if cleared =? 2 then score + 300
  else if cleared =? 3 then score + 500
  else if cleared >=? 4 then score + 800
  else score.

(** "Piece has landed": lock, clear rows, score.  The result is the locked
    store, the score and the count [clear_rows] returned. *)
Definition lock_resolution (piece : Piece) (grid : Grid) (locked : PyDict.t) (score : Z)
  : res (PyDict.t * Z * Z) :=
  let locked1 := lock_piece piece locked in
  '(cleared, locked2) <- clear_rows grid locked1 ;;
  Ok (locked2, update_score cleared score, cleared).

(** ** Vocabulary of the specification *)

(** A grid of [GRID_HEIGHT] rows of [GRID_WIDTH] cells, as [create_grid]
    builds it. *)
Definition grid_wf (grid : Grid) : Prop :=
  length grid = Z.to_nat GRID_HEIGHT /\
  Forall (fun row => length row = Z.to_nat GRID_WIDTH) grid.

(** The cell of the dense grid at column [x], row [y]; [None] outside the
    grid. *)
Definition cell_at (grid : Grid) (x y : Z) : option Color :=
  if in_range x y
  then match nth_error grid (Z.to_nat y) with
       | Some row => nth_error row (Z.to_nat x)
       | None => None
       end
  else None.

Definition empty_at (grid : Grid) (x y : Z) : Prop :=
  cell_at grid x y = Some BLACK.

Definition filled_at (grid : Grid) (x y : Z) : Prop :=
  exists c, cell_at grid x y = Some c /\ c <> BLACK.

Definition empty_atb (grid : Grid) (c : Cell) : bool :=
  match cell_at grid (fst c) (snd c) with
  | Some col => color_eqb col BLACK
  | None => false
  end.

(** The two checks [valid_space] makes on an occupied cell: the bounds
    check (left, right, bottom; none at the top), and for a cell with
    [y >= 0] the collision check against the grid. *)
Definition out_of_bounds (c : Cell) : Prop :=
  fst c < 0 \/ fst c >= GRID_WIDTH \/ snd c >= GRID_HEIGHT.

Definition collides (grid : Grid) (c : Cell) : Prop :=
  0 <= snd c /\ filled_at grid (fst c) (snd c).

Definition cell_ok (grid : Grid) (c : Cell) : Prop :=
  ~ out_of_bounds c /\ ~ collides grid c.

Definition filled_atb (grid : Grid) (x y : Z) : bool :=
  match cell_at grid x y with
  | Some c => negb (color_eqb c BLACK)
  | None => false
  end.

(** Row [y] is completed when each of its [GRID_WIDTH] cells is filled. *)
Definition row_completed (grid : Grid) (y : Z) : Prop :=
  forall x, 0 <= x < GRID_WIDTH -> filled_at grid x y.

Definition row_completedb (grid : Grid) (y : Z) : bool :=
  forallb (fun x => filled_atb grid x y) (PyList.range GRID_WIDTH).

Definition completed_rows (grid : Grid) : list Z :=
  filter (row_completedb grid) (PyList.range GRID_HEIGHT).

(** The number of completed rows below row [y], i.e. of index greater than
    [y]. *)
Definition rows_below (rows : list Z) (y : Z) : Z :=
  PyList.len (filter (fun r => y <? r) rows).

(** The number of completed rows above row [y], i.e. of index less than
    [y]: the shift as section 4.4 of the specification words it. *)
Definition rows_above (rows : list Z) (y : Z) : Z :=
  PyList.len (filter (fun r => r <? y) rows).

(** Where a locked cell that stays goes: down by the number of completed
    rows below it. *)
Definition moved_to (rows : list Z) (k : Cell) : Cell :=
  (fst k, snd k + rows_below rows (snd k)).

(** The order [clear_rows] moves the keys in: larger [y] first. *)
Definition desc_y (a b : Cell) : Prop := snd b <= snd a.

(** All keys of the locked store lie inside the grid. *)
Definition locked_in_grid (locked : PyDict.t) : Prop :=
  forall x y, In (x, y) (PyDict.keys locked) -> in_range x y = true.

(** The piece with its rotation advanced by one state, pivot unchanged. *)
Definition rotated (p : Piece) : Piece :=
  set_rotation p ((piece_rotation p + 1) mod 4).

(** The rotated piece with its pivot moved [dx] columns. *)
Definition kicked (p : Piece) (dx : Z) : Piece :=
  set_x (rotated p) (piece_x p + dx).

(** Iterations of the hard-drop loop that are enough for a piece at row
    [piece_y]. *)
Definition drop_fuel (p : Piece) : nat := Z.to_nat (GRID_HEIGHT + 1 - piece_y p).

(** ** Boards used in the examples *)

Definition full_row (y : Z) (color : Color) : PyDict.t :=
  map (fun x => ((x, y), color)) (PyList.range GRID_WIDTH).

(** Row 5 completed, one cell above it at (0, 4), one below at (0, 7). *)
Definition board_row5 : PyDict.t :=
  ((0, 4), COLOR_T) :: ((0, 7), COLOR_J) :: full_row 5 COLOR_I.

Definition grid_of (locked : PyDict.t) : Grid :=
  match create_grid locked with
  | Ok g => g
  | Raise _ => []
  end.

(** A T piece at the spawn position, resting on a locked cell at (5, 1). *)
Definition spawn_T : Piece := Piece_init (GRID_WIDTH / 2) 0 Idx2.
Definition board_under_spawn : PyDict.t := [((5, 1), COLOR_I)].

(** A T piece at (5, 5) over a locked cell at (5, 6): the rotation in
    place is blocked, one column right and one column left are both free. *)
Definition kick_T : Piece := mkPiece 5 5 Idx2 0.
Definition board_kick : PyDict.t := [((5, 6), COLOR_I)].


(** The T piece at the spawn position above a locked cell at (5, 10). *)
Definition board_drop : PyDict.t := [((5, 10), COLOR_I)].


(** [board_row5] after [clear_rows]. *)
Definition board_row5_cleared : PyDict.t :=
  [((0, 7), COLOR_J); ((0, 5), COLOR_T)].


(** An I piece landed in the gap of the bottom row: locking it completes
    row 19. *)
Definition board_gap : PyDict.t :=
  map (fun x => ((x, 19), COLOR_O)) [0; 1; 2; 7; 8; 9].
Definition landed_I : Piece := mkPiece 4 19 Idx0 0.

Definition frame_of (piece : Piece) (locked : PyDict.t) : Grid :=
  match frame_grid piece locked with
  | Ok g => g
  | Raise _ => []
  end.


(** ** get_new_piece and the frames of the main loop

    [get_new_piece] draws the shape index at random; here the index drawn
    is an argument.  The main loop is modelled frame by frame.  Its timers
    are floating-point numbers and enter the game logic through two
    comparisons only, which a frame takes as inputs: [gravity_due] for
    [fall_time >= fall_speed] and [ready] for
    [move_cooldown >= move_delay].  The keys held down and the index drawn
    for the next piece are inputs too.  Quitting, drawing and the speed
    ramp are left out. *)

Definition get_new_piece (idx : ShapeIndex) : Piece :=
  Piece_init (GRID_WIDTH / 2) 0 idx.

(** The gravity block: the piece after it, and whether [change_piece] was
    set. *)
Definition gravity_step (piece : Piece) (locked : PyDict.t) : res (Piece * bool) :=
  let piece1 := set_y piece (piece_y piece + 1) in
  grid <- create_grid locked ;;
  v <- valid_space piece1 grid ;;
  if negb v then Ok (set_y piece1 (piece_y piece1 - 1), true)
  else Ok (piece1, false).

(** The blocks of the LEFT, RIGHT and DOWN keys: the piece after the
    block, and whether [moved] was set. *)
Definition move_left (piece : Piece) (locked : PyDict.t) : res (Piece * bool) :=
  let piece1 := set_x piece (piece_x piece - 1) in
  grid <- create_grid locked ;;
  v <- valid_space piece1 grid ;;
  if negb v then Ok (set_x piece1 (piece_x piece1 + 1), false)
  else Ok (piece1, true).

Definition move_right (piece : Piece) (locked : PyDict.t) : res (Piece * bool) :=
  let piece1 := set_x piece (piece_x piece + 1) in
  grid <- create_grid locked ;;
  v <- valid_space piece1 grid ;;
  if negb v then Ok (set_x piece1 (piece_x piece1 - 1), false)
  else Ok (piece1, true).

Definition move_down (piece : Piece) (locked : PyDict.t) : res (Piece * bool) :=
  let piece1 := set_y piece (piece_y piece + 1) in
  grid <- create_grid locked ;;
  v <- valid_space piece1 grid ;;
  if negb v then Ok (set_y piece1 (piece_y piece1 - 1), false)
  else Ok (piece1, true).

(** The block of the UP key. *)
Definition rotate_key (piece : Piece) (locked : PyDict.t) : res (Piece * bool) :=
  grid <- create_grid locked ;;
  '(ok, piece') <- try_rotate_with_kicks piece grid ;;
  Ok (piece', ok).

Record Keys : Type := mkKeys {
  K_LEFT : bool;
  K_RIGHT : bool;
  K_DOWN : bool;
  K_UP : bool;
  K_SPACE : bool
}.

(** One key block, run when its key is held and the cooldown has elapsed;
    [moved] is never reset inside a frame. *)
Definition on_key (pressed ready : bool)
    (block : Piece -> PyDict.t -> res (Piece * bool))
    (locked : PyDict.t) (st : Piece * bool) : res (Piece * bool) :=
  if pressed && ready
  then '(piece', m) <- block (fst st) locked ;; Ok (piece', snd st || m)
  else Ok st.

(** The key blocks in the order of the source: LEFT, RIGHT, DOWN, UP, then
    SPACE.  The result is the piece, [change_piece] and [moved]. *)
Definition handle_keys (fuel : nat) (ready : bool) (keys : Keys)
    (piece : Piece) (locked : PyDict.t) (change_piece : bool)
  : option (res (Piece * bool * bool)) :=
  match (st1 <- on_key (K_LEFT keys) ready move_left locked (piece, false) ;;
         st2 <- on_key (K_RIGHT keys) ready move_right locked st1 ;;
         st3 <- on_key (K_DOWN keys) ready move_down locked st2 ;;
         on_key (K_UP keys) ready rotate_key locked st3) with
  | Raise e => Some (Raise e)
  | Ok (piece4, moved) =>
      if K_SPACE keys && ready
      then match hard_drop fuel piece4 locked with
           | None => None
           | Some (Raise e) => Some (Raise e)
           | Some (Ok piece5) => Some (Ok (piece5, true, true))
           end
      else Some (Ok (piece4, change_piece, moved))
  end.

Record State : Type := mkState {
  locked_positions : PyDict.t;
  current_piece : Piece;
  next_piece : Piece;
  score : Z;
  run : bool
}.

Record Inputs : Type := mkInputs {
  gravity_due : bool;
  ready : bool;
  keys : Keys;
  next_index : ShapeIndex
}.

(** The state [main] starts from, given the two indices drawn. *)
Definition initial_state (idx1 idx2 : ShapeIndex) : State :=
  mkState [] (get_new_piece idx1) (get_new_piece idx2) 0 true.

(** "Piece has landed": the state after the lock, with the next piece
    promoted, a new one drawn and the loss check made. *)
Definition land (piece : Piece) (grid : Grid) (inp : Inputs) (s : State) : res State :=
  '(locked2, score2, _) <- lock_resolution piece grid (locked_positions s) (score s) ;;
  Ok (mkState locked2 (next_piece s) (get_new_piece (next_index inp)) score2
              (if check_lost locked2 then false else run s)).

(** The first half of a frame: gravity when it is due, then the keys.
    The result is the piece and [change_piece]. *)
Definition input_phase (fuel : nat) (inp : Inputs) (piece : Piece) (locked : PyDict.t)
  : option (res (Piece * bool)) :=
  match (if gravity_due inp then gravity_step piece locked
         else Ok (piece, false)) with
  | Raise e => Some (Raise e)
  | Ok (piece1, change1) =>
      match handle_keys fuel (ready inp) (keys inp) piece1 locked change1 with
      | None => None
      | Some (Raise e) => Some (Raise e)
      | Some (Ok (piece2, change2, _)) => Some (Ok (piece2, change2))
      end
  end.

(** The body of [while run]: the input phase, the grid of the frame, and
    the landing when [change_piece] is set. *)
Definition frame_step (fuel : nat) (inp : Inputs) (s : State) : option (res State) :=
  let locked := locked_positions s in
  match input_phase fuel inp (current_piece s) locked with
  | None => None
  | Some (Raise e) => Some (Raise e)
  | Some (Ok (piece2, change2)) =>
      Some (grid <- frame_grid piece2 locked ;;
            if change2 then land piece2 grid inp s
            else Ok (mkState locked piece2 (next_piece s) (score s) (run s)))
  end.

(** The loop over the frames of a finite run of inputs; it stops when
    [run] is false. *)
Fixpoint main_loop (fuel : nat) (inputs : list Inputs) (s : State) : option (res State) :=
  match inputs with
  | [] => Some (Ok s)
  | inp :: rest =>
      if run s
      then match frame_step fuel inp s with
           | Some (Ok s') => main_loop fuel rest s'
           | other => other
           end
      else Some (Ok s)
  end.

(** ** Invariants of the game state *)

(** Every key of the store has its column in the grid and its row above
    the bottom; rows above the top are allowed. *)
Definition store_bounded (locked : PyDict.t) : Prop :=
  forall x y, In (x, y) (PyDict.keys locked) -> 0 <= x < GRID_WIDTH /\ y < GRID_HEIGHT.

(** No row above the top of the grid is filled in all columns. *)
Definition no_full_row_above (locked : PyDict.t) : Prop :=
  forall y, y < 0 -> exists x, 0 <= x < GRID_WIDTH /\ PyDict.get (x, y) locked = None.

(** Every key of the store lies in rows 1 to 19 of the grid. *)
Definition store_below_top (locked : PyDict.t) : Prop :=
  forall x y, In (x, y) (PyDict.keys locked) ->
              0 <= x < GRID_WIDTH /\ 1 <= y < GRID_HEIGHT.

(** No stored colour is [BLACK]. *)
Definition store_coloured (locked : PyDict.t) : Prop :=
  forall k c, PyDict.get k locked = Some c -> c <> BLACK.

(** What holds of the state whenever the loop tests [run] and finds it
    true. *)
Definition state_inv (s : State) : Prop :=
  PyDict.wf (locked_positions s) /\
  store_below_top (locked_positions s) /\
  completed_rows (grid_of (locked_positions s)) = [] /\
  in_bounds (current_piece s) = true /\
  0 <= piece_y (current_piece s) /\
  (exists idx, next_piece s = get_new_piece idx) /\
  0 <= score s.


(** What a block of the input phase may do to the piece: leave it as it
    is, or move it to a valid placement; never up, never to another
    shape. *)
Definition moved_validly (locked : PyDict.t) (p p' : Piece) : Prop :=
  (p' = p \/ valid_on p' locked = Ok true) /\
  piece_y p <= piece_y p' /\
  piece_shape_index p' = piece_shape_index p.

(** The state at the end of a run of the loop. *)
Definition state_ok (s : State) : Prop :=
  PyDict.wf (locked_positions s) /\
  store_bounded (locked_positions s) /\
  store_coloured (locked_positions s) /\
  0 <= score s /\
  (run s = true -> state_inv s) /\
  (run s = false -> check_lost (locked_positions s) = true).


(** The cells of the given rows inside the grid. *)
Definition row_cells (rows : list Z) : list Cell :=
  flat_map (fun y => map (fun x => (x, y)) (PyList.range GRID_WIDTH)) rows.

(** The keys of the store in rows other than the given ones. *)
Definition keys_outside (rows : list Z) (locked : PyDict.t) : list Cell :=
  filter (fun k => negb (existsb (Z.eqb (snd k)) rows)) (PyDict.keys locked).

(** * Properties *)

(** ** Equality tests *)

Lemma cell_eqb_spec (a b : Cell) : cell_eqb a b = true <-> a = b.
Proof.
  destruct a as [ax ay], b as [bx by_]; unfold cell_eqb; simpl.
  rewrite andb_true_iff, !Z.eqb_eq.
  split; [intros [-> ->] | intros [= -> ->]]; auto.
Qed.

Lemma cell_eqb_refl (a : Cell) : cell_eqb a a = true.
Proof. now apply cell_eqb_spec. Qed.

Lemma cell_eqb_neq (a b : Cell) : a <> b -> cell_eqb a b = false.
Proof.
  intros H. destruct (cell_eqb a b) eqn:E; auto.
  apply cell_eqb_spec in E. contradiction.
Qed.

Lemma cell_eq_dec (a b : Cell) : {a = b} + {a <> b}.
Proof. decide equality; apply Z.eq_dec. Qed.

Lemma color_eqb_spec (a b : Color) : color_eqb a b = true <-> a = b.
Proof.
  destruct a as [[r1 g1] b1], b as [[r2 g2] b2]; unfold color_eqb.
  rewrite !andb_true_iff, !Z.eqb_eq.
  split; [intros [[-> ->] ->] | intros [= -> -> ->]]; auto.
Qed.

Lemma color_eqb_sym (a b : Color) : color_eqb a b = color_eqb b a.
Proof.
  destruct (color_eqb a b) eqn:E1, (color_eqb b a) eqn:E2; auto.
  - apply color_eqb_spec in E1. subst. rewrite (proj2 (color_eqb_spec b b)) in E2; [discriminate | reflexivity].
  - apply color_eqb_spec in E2. subst. rewrite (proj2 (color_eqb_spec a a)) in E1; [discriminate | reflexivity].
Qed.

Lemma cell_mem_In (c : Cell) (l : list Cell) : cell_mem c l = true <-> In c l.
Proof.
  unfold cell_mem. rewrite existsb_exists. split.
  - intros [k [Hin Heq]]. apply cell_eqb_spec in Heq. now subst.
  - intros Hin. exists c. split; [assumption | apply cell_eqb_refl].
Qed.

(** ** Python lists *)

Lemma range_In (n y : Z) : In y (PyList.range n) <-> 0 <= y < n.
Proof.
  unfold PyList.range. rewrite in_map_iff. split.
  - intros [k [<- H]]. apply in_seq in H. lia.
  - intros H. exists (Z.to_nat y). split; [lia | apply in_seq; lia].
Qed.

Lemma getitem_in_range {A : Type} (l : list A) (i : Z) :
  0 <= i < PyList.len l ->
  exists a, PyList.getitem l i = Ok a /\ nth_error l (Z.to_nat i) = Some a.
Proof.
  intros H. unfold PyList.getitem.
  replace (i <? 0) with false by (symmetry; apply Z.ltb_ge; lia).
  replace ((0 <=? i) && (i <? PyList.len l)) with true
    by (symmetry; apply andb_true_iff; split; [apply Z.leb_le | apply Z.ltb_lt]; lia).
  destruct (nth_error l (Z.to_nat i)) as [a|] eqn:E.
  - exists a. auto.
  - apply nth_error_None in E. unfold PyList.len in H. lia.
Qed.

Lemma filterM_pure {A : Type} (f : A -> res bool) (p : A -> bool) (l : list A) :
  (forall a, In a l -> f a = Ok (p a)) ->
  PyList.filterM f l = Ok (filter p l).
Proof.
  induction l as [|a t IH]; intros H; simpl.
  - reflexivity.
  - rewrite (H a (or_introl eq_refl)). simpl.
    rewrite IH by (intros b Hb; apply H; now right). simpl.
    reflexivity.
Qed.

Lemma update_length {A : Type} (l : list A) (n : nat) (a : A) :
  length (PyList.update l n a) = length l.
Proof.
  revert n. induction l as [|h t IH]; intros [|n]; simpl; auto.
Qed.

Lemma update_In {A : Type} (l : list A) (n : nat) (a b : A) :
  In b (PyList.update l n a) -> b = a \/ In b l.
Proof.
  revert n. induction l as [|h t IH]; intros [|n]; simpl; auto.
  - intros [<- | H]; auto.
  - intros [<- | H]; auto. destruct (IH _ H); auto.
Qed.

(** ** The dense grid *)

Lemma in_range_iff (x y : Z) :
  in_range x y = true <-> 0 <= x < GRID_WIDTH /\ 0 <= y < GRID_HEIGHT.
Proof.
  unfold in_range. rewrite !andb_true_iff, !Z.leb_le, !Z.ltb_lt. tauto.
Qed.

Lemma grid_row_wf (g : Grid) (y : Z) :
  grid_wf g -> 0 <= y < GRID_HEIGHT ->
  exists row, PyList.getitem g y = Ok row /\
              nth_error g (Z.to_nat y) = Some row /\
              PyList.len row = GRID_WIDTH.
Proof.
  intros [Hlen Hrows] Hy.
  destruct (getitem_in_range g y) as [row [Hget Hnth]].
  { unfold PyList.len. rewrite Hlen. unfold GRID_HEIGHT in *. lia. }
  exists row. repeat split; auto.
  apply nth_error_In in Hnth.
  rewrite Forall_forall in Hrows. unfold PyList.len.
  rewrite (Hrows _ Hnth). unfold GRID_WIDTH. reflexivity.
Qed.

Lemma grid_get_wf (g : Grid) (x y : Z) :
  grid_wf g -> in_range x y = true ->
  exists c, grid_get g x y = Ok c /\ cell_at g x y = Some c.
Proof.
  intros Hwf Hr. pose proof (proj1 (in_range_iff x y) Hr) as [Hx Hy].
  destruct (grid_row_wf g y Hwf Hy) as [row [Hget [Hnth Hlen]]].
  destruct (getitem_in_range row x) as [c [Hc Hcn]]; [lia|].
  exists c. unfold grid_get, cell_at. rewrite Hget, Hr, Hnth. simpl. auto.
Qed.

Lemma all_positions_In (x y : Z) : In (x, y) all_positions <-> in_range x y = true.
Proof.
  unfold all_positions. rewrite in_flat_map, in_range_iff. split.
  - intros [y' [Hy Hin]]. apply in_map_iff in Hin as [x' [[= <- <-] Hx]].
    apply range_In in Hy, Hx. lia.
  - intros [Hx Hy]. exists y. split; [now apply range_In|].
    apply in_map_iff. exists x. split; [reflexivity | now apply range_In].
Qed.

Lemma accepted_wf (g : Grid) :
  grid_wf g -> accepted g = Ok (filter (empty_atb g) all_positions).
Proof.
  intros Hwf. unfold accepted. apply filterM_pure.
  intros [x y] Hin. apply all_positions_In in Hin.
  destruct (grid_get_wf g x y Hwf Hin) as [c [Hget Hat]].
  rewrite Hget. unfold empty_atb. simpl. now rewrite Hat.
Qed.

Lemma cell_at_Some_range (g : Grid) (x y : Z) (c : Color) :
  cell_at g x y = Some c -> in_range x y = true.
Proof. unfold cell_at. destruct (in_range x y); [auto | discriminate]. Qed.

Lemma accepted_In (g : Grid) (c : Cell) :
  In c (filter (empty_atb g) all_positions) <-> empty_at g (fst c) (snd c).
Proof.
  destruct c as [x y]. rewrite filter_In, all_positions_In.
  unfold empty_atb, empty_at. simpl. split.
  - intros [_ H]. destruct (cell_at g x y) as [col|]; [|discriminate].
    apply color_eqb_spec in H. now subst.
  - intros H. split; [now apply cell_at_Some_range in H|].
    rewrite H. now apply color_eqb_spec.
Qed.

(** In a well-formed grid a cell inside the bounds is empty or filled. *)
Lemma empty_or_filled (g : Grid) (x y : Z) :
  grid_wf g -> in_range x y = true ->
  (empty_at g x y /\ ~ filled_at g x y) \/ (filled_at g x y /\ ~ empty_at g x y).
Proof.
  intros Hwf Hr. destruct (grid_get_wf g x y Hwf Hr) as [c [_ Hat]].
  unfold empty_at, filled_at. rewrite Hat.
  destruct (color_eqb c BLACK) eqn:E.
  - apply color_eqb_spec in E. subst. left. split; auto.
    intros [c' [[= <-] Hne]]. now apply Hne.
  - right. split.
    + exists c. split; auto. intros ->.
      rewrite (proj2 (color_eqb_spec BLACK BLACK) eq_refl) in E. discriminate.
    + intros [= ->].
      rewrite (proj2 (color_eqb_spec BLACK BLACK) eq_refl) in E. discriminate.
Qed.

(** ** valid_space *)

Lemma get_cells_length (p : Piece) : length (get_cells p) = 4%nat.
Proof.
  unfold get_cells. rewrite length_map.
  assert (H : 0 <= piece_rotation p mod 4 < 4) by (apply Z.mod_pos_bound; lia).
  destruct p as [x y idx r]; simpl in *.
  remember (r mod 4) as m eqn:Em. clear Em.
  assert (Hm : m = 0 \/ m = 1 \/ m = 2 \/ m = 3) by lia.
  destruct idx; destruct Hm as [-> | [-> | [-> | ->]]]; reflexivity.
Qed.

(** The pivot itself is an occupied cell: every rotation state of every
    shape starts with the offset (0, 0). *)
Lemma get_cells_pivot (p : Piece) : In (piece_x p, piece_y p) (get_cells p).
Proof.
  unfold get_cells.
  assert (H : 0 <= piece_rotation p mod 4 < 4) by (apply Z.mod_pos_bound; lia).
  destruct p as [x y idx r]; simpl in *.
  remember (r mod 4) as m eqn:Em. clear Em.
  assert (Hm : m = 0 \/ m = 1 \/ m = 2 \/ m = 3) by lia.
  destruct idx; destruct Hm as [-> | [-> | [-> | ->]]]; simpl; left;
    f_equal; lia.
Qed.

Lemma valid_space_loop_true (acc cells : list Cell) :
  valid_space_loop acc cells = true <->
  Forall (fun c => ~ out_of_bounds c /\ (0 <= snd c -> In c acc)) cells.
Proof.
  induction cells as [|[x y] rest IH]; simpl.
  - split; auto.
  - destruct ((x <? 0) || (x >=? GRID_WIDTH) || (y >=? GRID_HEIGHT)) eqn:Eb.
    + split; [discriminate|]. intros H. inversion H as [|? ? [Hb _] _]; subst.
      exfalso. apply Hb. unfold out_of_bounds; simpl.
      rewrite !orb_true_iff, Z.ltb_lt, !Z.geb_le in Eb. lia.
    + rewrite !orb_false_iff, Z.ltb_ge in Eb. destruct Eb as [[Hx1 Hx2] Hy].
      assert (Hnb : ~ out_of_bounds (x, y)).
      { unfold out_of_bounds; simpl. intros H.
        rewrite Z.geb_leb, Z.leb_gt in Hx2, Hy. lia. }
      destruct (y >=? 0) eqn:Ey; simpl.
      * destruct (cell_mem (x, y) acc) eqn:Em; simpl.
        -- rewrite IH. apply cell_mem_In in Em. split.
           ++ intros H. constructor; auto.
           ++ intros H. now inversion H.
        -- split; [discriminate|]. intros H. inversion H as [|? ? [_ Hin] _]; subst.
           simpl in Hin. rewrite Z.geb_le in Ey.
           apply cell_mem_In in Hin; [|lia]. congruence.
      * rewrite IH. rewrite Z.geb_leb, Z.leb_gt in Ey. split.
        -- intros H. constructor; auto. split; auto. simpl. lia.
        -- intros H. now inversion H.
Qed.

Lemma not_out_of_bounds_range (c : Cell) :
  ~ out_of_bounds c -> 0 <= snd c -> in_range (fst c) (snd c) = true.
Proof.
  unfold out_of_bounds. intros H Hy. apply in_range_iff. lia.
Qed.

Lemma valid_space_wf (p : Piece) (g : Grid) :
  grid_wf g ->
  exists b, valid_space p g = Ok b /\
            (b = true <-> Forall (cell_ok g) (get_cells p)).
Proof.
  intros Hwf. unfold valid_space. rewrite (accepted_wf g Hwf). cbn [bind].
  eexists. split; [reflexivity|].
  rewrite valid_space_loop_true. rewrite !Forall_forall.
  split; intros H c Hc; specialize (H c Hc).
  - destruct H as [Hb Hin]. split; auto.
    intros [Hy Hf]. specialize (Hin Hy). apply accepted_In in Hin.
    destruct (empty_or_filled g (fst c) (snd c) Hwf
                (not_out_of_bounds_range c Hb Hy)) as [[_ Hn] | [_ Hn]]; auto.
  - destruct H as [Hb Hcol]. split; auto.
    intros Hy. apply accepted_In.
    destruct (empty_or_filled g (fst c) (snd c) Hwf
                (not_out_of_bounds_range c Hb Hy)) as [[He _] | [Hf _]]; auto.
    exfalso. apply Hcol. split; auto.
Qed.

(** Whatever the grid, a placement [valid_space] accepts has all its cells
    inside the left, right and bottom bounds. *)
Lemma valid_space_true_bounds (p : Piece) (g : Grid) :
  valid_space p g = Ok true ->
  forall c, In c (get_cells p) -> ~ out_of_bounds c.
Proof.
  unfold valid_space. destruct (accepted g) as [acc|e]; cbn [bind]; [|discriminate].
  intros [= H] c Hc. apply valid_space_loop_true in H.
  rewrite Forall_forall in H. now apply H.
Qed.

(** C1. For every piece and every grid of 20 rows by 10 columns,
    [valid_space] returns a boolean [b]; the piece has 4 occupied cells;
    [b] is false as soon as one occupied cell has x < 0, x >= 10 or
    y >= 20 (there is no check against negative y); [b] is false as soon as
    one occupied cell with y >= 0 lies on a non-empty cell of the grid; and
    [b] is true exactly when every occupied cell passes both checks. *)
Theorem valid_space_spec (piece : Piece) (grid : Grid) :
  grid_wf grid ->
  exists b, valid_space piece grid = Ok b /\
    length (get_cells piece) = 4%nat /\
    ((exists x y, In (x, y) (get_cells piece) /\
                  (x < 0 \/ x >= 10 \/ y >= 20)) -> b = false) /\
    ((exists x y, In (x, y) (get_cells piece) /\
                  0 <= y /\ filled_at grid x y) -> b = false) /\
    (b = true <->
     forall x y, In (x, y) (get_cells piece) ->
                 ~ (x < 0 \/ x >= 10 \/ y >= 20) /\
                 ~ (0 <= y /\ filled_at grid x y)).
Proof.
  intros Hwf. destruct (valid_space_wf piece grid Hwf) as [b [Hv Hb]].
  exists b. split; [exact Hv|]. split; [apply get_cells_length|].
  rewrite Forall_forall in Hb.
  assert (Hall : b = true <->
     forall x y, In (x, y) (get_cells piece) ->
                 ~ (x < 0 \/ x >= 10 \/ y >= 20) /\
                 ~ (0 <= y /\ filled_at grid x y)).
  { rewrite Hb. split.
    - intros H x y Hin. exact (H (x, y) Hin).
    - intros H [x y] Hin. exact (H x y Hin). }
  split; [|split]; [| |exact Hall].
  - intros [x [y [Hin Hout]]]. destruct b; auto.
    destruct (proj1 Hall eq_refl x y Hin) as [Hn _]. contradiction.
  - intros [x [y [Hin Hcol]]]. destruct b; auto.
    destruct (proj1 Hall eq_refl x y Hin) as [_ Hn]. contradiction.
Qed.

Lemma valid_space_spec_witness :
  grid_wf (grid_of board_under_spawn) /\
  exists b, valid_space spawn_T (grid_of board_under_spawn) = Ok b /\
    length (get_cells spawn_T) = 4%nat /\
    ((exists x y, In (x, y) (get_cells spawn_T) /\
                  (x < 0 \/ x >= 10 \/ y >= 20)) -> b = false) /\
    ((exists x y, In (x, y) (get_cells spawn_T) /\
                  0 <= y /\ filled_at (grid_of board_under_spawn) x y) -> b = false) /\
    (b = true <->
     forall x y, In (x, y) (get_cells spawn_T) ->
                 ~ (x < 0 \/ x >= 10 \/ y >= 20) /\
                 ~ (0 <= y /\ filled_at (grid_of board_under_spawn) x y)).
Proof.
  assert (Hwf : grid_wf (grid_of board_under_spawn)).
  { split; [reflexivity | vm_compute; repeat constructor]. }
  split; [exact Hwf | exact (valid_space_spec spawn_T _ Hwf)].
Defined.

(** ** create_grid *)

Lemma empty_grid_wf : grid_wf empty_grid.
Proof.
  unfold grid_wf, empty_grid. split.
  - apply repeat_length.
  - apply Forall_forall. intros row Hrow. apply repeat_spec in Hrow. subst.
    apply repeat_length.
Qed.

Lemma setitem_in_range {A : Type} (l : list A) (i : Z) (a : A) :
  0 <= i < PyList.len l ->
  PyList.setitem l i a = Ok (PyList.update l (Z.to_nat i) a).
Proof.
  intros H. unfold PyList.setitem.
  replace (i <? 0) with false by (symmetry; apply Z.ltb_ge; lia).
  replace ((0 <=? i) && (i <? PyList.len l)) with true
    by (symmetry; apply andb_true_iff; split; [apply Z.leb_le | apply Z.ltb_lt]; lia).
  reflexivity.
Qed.

Lemma grid_set_wf (g : Grid) (x y : Z) (c : Color) :
  grid_wf g -> in_range x y = true ->
  exists g', grid_set g x y c = Ok g' /\ grid_wf g'.
Proof.
  intros Hwf Hr. pose proof (proj1 (in_range_iff x y) Hr) as [Hx Hy].
  destruct (grid_row_wf g y Hwf Hy) as [row [Hget [Hnth Hlen]]].
  unfold grid_set. rewrite Hget. cbn [bind].
  rewrite setitem_in_range by lia. cbn [bind].
  destruct Hwf as [Hl Hrows].
  rewrite setitem_in_range by (unfold PyList.len; rewrite Hl; unfold GRID_HEIGHT in *; lia).
  eexists. split; [reflexivity|]. split.
  - now rewrite update_length.
  - apply Forall_forall. intros r Hr'. apply update_In in Hr' as [-> | Hin].
    + rewrite update_length. unfold PyList.len in Hlen. unfold GRID_WIDTH in *. lia.
    + rewrite Forall_forall in Hrows. now apply Hrows.
Qed.

Lemma create_grid_loop_wf (items : list (Cell * Color)) (g : Grid) :
  grid_wf g -> exists g', create_grid_loop items g = Ok g' /\ grid_wf g'.
Proof.
  revert g. induction items as [|[[x y] c] rest IH]; intros g Hwf; simpl.
  - eauto.
  - destruct (in_range x y) eqn:Hr; [|now apply IH].
    destruct (grid_set_wf g x y c Hwf Hr) as [g1 [Hset Hwf1]].
    rewrite Hset. cbn [bind]. now apply IH.
Qed.

(** [create_grid] never raises and always yields a 20 by 10 grid. *)
Lemma create_grid_wf (locked : PyDict.t) :
  exists g, create_grid locked = Ok g /\ grid_wf g.
Proof. apply create_grid_loop_wf, empty_grid_wf. Qed.

Lemma grid_of_wf (locked : PyDict.t) : grid_wf (grid_of locked).
Proof.
  unfold grid_of. destruct (create_grid_wf locked) as [g [-> Hwf]]. exact Hwf.
Qed.

Lemma create_grid_grid_of (locked : PyDict.t) :
  create_grid locked = Ok (grid_of locked).
Proof.
  unfold grid_of. destruct (create_grid_wf locked) as [g [-> _]]. reflexivity.
Qed.

(** ** try_rotate_with_kicks *)

Lemma set_x_restore (p : Piece) (dx : Z) :
  set_x (set_x p (piece_x p + dx)) (piece_x p) = p.
Proof. destruct p; reflexivity. Qed.

Lemma kicked_eq (p : Piece) (dx : Z) :
  set_x (rotated p) (piece_x (rotated p) + dx) = kicked p dx.
Proof. reflexivity. Qed.

Lemma kick_loop_cons (dx : Z) (rest : list Z) (q : Piece) (g : Grid) :
  kick_loop (dx :: rest) q g =
  match valid_space (set_x q (piece_x q + dx)) g with
  | Ok true => Ok (true, set_x q (piece_x q + dx))
  | Ok false => kick_loop rest q g
  | Raise e => Raise e
  end.
Proof.
  cbn [kick_loop]. destruct (valid_space (set_x q (piece_x q + dx)) g) as [[|]|e];
    cbn [bind]; try reflexivity.
  now rewrite set_x_restore.
Qed.

Lemma try_rotate_unfold (p : Piece) (g : Grid) :
  try_rotate_with_kicks p g =
  match valid_space (rotated p) g with
  | Ok true => Ok (true, rotated p)
  | Ok false =>
      match kick_loop kicks (rotated p) g with
      | Ok (true, p2) => Ok (true, p2)
      | Ok (false, p2) => Ok (false, set_rotation p2 (piece_rotation p))
      | Raise e => Raise e
      end
  | Raise e => Raise e
  end.
Proof.
  unfold try_rotate_with_kicks. fold (rotated p).
  destruct (valid_space (rotated p) g) as [[|]|e]; reflexivity.
Qed.

Lemma rotated_revert (p : Piece) :
  set_rotation (rotated p) (piece_rotation p) = p.
Proof. destruct p; reflexivity. Qed.

(** C2. For every piece and every 20 by 10 grid, the rotation attempt
    returns; with the rotation set to (current + 1) mod 4 it commits at the
    unchanged pivot when that placement is valid; otherwise it tries the
    pivot offsets +1, -1, +2, -2 in this order against the new rotation and
    commits at the first valid one, whatever the validity of the later
    ones; when the placement in place and the four kicks are all invalid it
    returns failure with the piece as it was before the attempt (rotation
    index and pivot x restored). *)
Theorem try_rotate_with_kicks_spec (piece : Piece) (grid : Grid) :
  grid_wf grid ->
  (exists ok piece', try_rotate_with_kicks piece grid = Ok (ok, piece')) /\
  piece_rotation (rotated piece) = (piece_rotation piece + 1) mod 4 /\
  (valid_space (rotated piece) grid = Ok true ->
   try_rotate_with_kicks piece grid = Ok (true, rotated piece)) /\
  (valid_space (rotated piece) grid = Ok false ->
   (valid_space (kicked piece 1) grid = Ok true ->
    try_rotate_with_kicks piece grid = Ok (true, kicked piece 1)) /\
   (valid_space (kicked piece 1) grid = Ok false ->
    (valid_space (kicked piece (-1)) grid = Ok true ->
     try_rotate_with_kicks piece grid = Ok (true, kicked piece (-1))) /\
    (valid_space (kicked piece (-1)) grid = Ok false ->
     (valid_space (kicked piece 2) grid = Ok true ->
      try_rotate_with_kicks piece grid = Ok (true, kicked piece 2)) /\
     (valid_space (kicked piece 2) grid = Ok false ->
      (valid_space (kicked piece (-2)) grid = Ok true ->
       try_rotate_with_kicks piece grid = Ok (true, kicked piece (-2))) /\
      (valid_space (kicked piece (-2)) grid = Ok false ->
       try_rotate_with_kicks piece grid = Ok (false, piece)))))).
Proof.
  intros Hwf.
  rewrite try_rotate_unfold. unfold kicks.
  rewrite !kick_loop_cons, !kicked_eq. cbn [kick_loop].
  destruct (valid_space_wf (rotated piece) grid Hwf) as [b0 [H0 _]].
  destruct (valid_space_wf (kicked piece 1) grid Hwf) as [b1 [H1 _]].
  destruct (valid_space_wf (kicked piece (-1)) grid Hwf) as [b2 [H2 _]].
  destruct (valid_space_wf (kicked piece 2) grid Hwf) as [b3 [H3 _]].
  destruct (valid_space_wf (kicked piece (-2)) grid Hwf) as [b4 [H4 _]].
  rewrite H0, H1, H2, H3, H4.
  split; [|split; [reflexivity|]].
  - destruct b0, b1, b2, b3, b4; eauto.
  - destruct b0, b1, b2, b3, b4; rewrite ?rotated_revert;
      repeat split; intros; try discriminate; reflexivity.
Qed.

Lemma try_rotate_with_kicks_spec_witness :
  grid_wf (grid_of board_kick) /\
  valid_space (rotated kick_T) (grid_of board_kick) = Ok false /\
  valid_space (kicked kick_T 1) (grid_of board_kick) = Ok true /\
  valid_space (kicked kick_T (-1)) (grid_of board_kick) = Ok true /\
  try_rotate_with_kicks kick_T (grid_of board_kick) = Ok (true, kicked kick_T 1).
Proof.
  assert (Hwf : grid_wf (grid_of board_kick)).
  { split; [reflexivity | vm_compute; repeat constructor]. }
  split; [exact Hwf|].
  split; [reflexivity|]. split; [reflexivity|]. split; [reflexivity|].
  destruct (try_rotate_with_kicks_spec kick_T (grid_of board_kick) Hwf)
    as [_ [_ [_ H]]].
  apply H; reflexivity.
Defined.

Lemma kick_loop_true (ks : list Z) (q q' : Piece) (g : Grid) :
  kick_loop ks q g = Ok (true, q') ->
  exists dx, In dx ks /\ q' = set_x q (piece_x q + dx).
Proof.
  induction ks as [|dx rest IH].
  - cbn [kick_loop]. discriminate.
  - rewrite kick_loop_cons.
    destruct (valid_space (set_x q (piece_x q + dx)) g) as [[|]|e].
    + intros [= <-]. exists dx. split; [now left | reflexivity].
    + intros H. destruct (IH H) as [dx' [Hin Heq]].
      exists dx'. split; [now right | exact Heq].
    + discriminate.
Qed.

(** An attempt that succeeds and leaves the pivot column where it was has
    used no kick: every kick offset is non-zero. *)
Lemma try_rotate_no_kick (p p' : Piece) (g : Grid) :
  try_rotate_with_kicks p g = Ok (true, p') ->
  piece_x p' = piece_x p ->
  p' = rotated p /\ valid_space (rotated p) g = Ok true.
Proof.
  rewrite try_rotate_unfold.
  destruct (valid_space (rotated p) g) as [[|]|e]; [| |discriminate].
  - intros [= <-] _. auto.
  - destruct (kick_loop kicks (rotated p) g) as [[[|] p2]|e] eqn:Ek;
      [|discriminate|discriminate].
    intros [= <-] Hx. exfalso.
    apply kick_loop_true in Ek as [dx [Hin ->]].
    destruct p as [x y idx r]. cbn in Hx.
    unfold kicks in Hin. cbn in Hin. lia.
Qed.

Lemma rotated_four_rotation (p : Piece) :
  piece_rotation (rotated (rotated (rotated (rotated p)))) =
  piece_rotation p mod 4.
Proof.
  destruct p as [x y idx r]. unfold rotated, set_rotation. cbn.
  Z.to_euclidean_division_equations. lia.
Qed.

Lemma rotated_four (p : Piece) :
  0 <= piece_rotation p < 4 ->
  rotated (rotated (rotated (rotated p))) = p.
Proof.
  intros Hr. pose proof (rotated_four_rotation p) as H.
  rewrite (Z.mod_small _ _ Hr) in H.
  destruct p as [x y idx r]. unfold rotated, set_rotation in *. cbn in *.
  now f_equal.
Qed.

Lemma rotated_four_cells (p : Piece) :
  get_cells (rotated (rotated (rotated (rotated p)))) = get_cells p.
Proof.
  unfold get_cells. rewrite rotated_four_rotation, Z.mod_mod by lia.
  destruct p; reflexivity.
Qed.

(** C9. For every piece and every grid: when four consecutive rotation
    attempts each succeed with the pivot column unchanged, i.e. without a
    kick offset, the piece after the fourth attempt has the pivot
    coordinates and shape of the piece before the first, its rotation
    index is the original one modulo 4, it occupies the same cells, and
    with the rotation index in 0..3 (the class sets it to 0 and only
    assigns values modulo 4) it is the original piece. *)
Theorem rotate_four_times_identity (piece p1 p2 p3 p4 : Piece) (grid : Grid) :
  try_rotate_with_kicks piece grid = Ok (true, p1) -> piece_x p1 = piece_x piece ->
  try_rotate_with_kicks p1 grid = Ok (true, p2) -> piece_x p2 = piece_x p1 ->
  try_rotate_with_kicks p2 grid = Ok (true, p3) -> piece_x p3 = piece_x p2 ->
  try_rotate_with_kicks p3 grid = Ok (true, p4) -> piece_x p4 = piece_x p3 ->
  piece_x p4 = piece_x piece /\ piece_y p4 = piece_y piece /\
  piece_shape_index p4 = piece_shape_index piece /\
  piece_rotation p4 = piece_rotation piece mod 4 /\
  get_cells p4 = get_cells piece /\
  (0 <= piece_rotation piece < 4 -> p4 = piece).
Proof.
  intros H1 X1 H2 X2 H3 X3 H4 X4.
  apply try_rotate_no_kick in H1 as [-> _]; [|exact X1].
  apply try_rotate_no_kick in H2 as [-> _]; [|exact X2].
  apply try_rotate_no_kick in H3 as [-> _]; [|exact X3].
  apply try_rotate_no_kick in H4 as [-> _]; [|exact X4].
  repeat split; try reflexivity.
  - apply rotated_four_rotation.
  - apply rotated_four_cells.
  - apply rotated_four.
Qed.

Lemma rotate_four_times_identity_witness :
  try_rotate_with_kicks kick_T (grid_of []) = Ok (true, rotated kick_T) /\
  try_rotate_with_kicks (rotated kick_T) (grid_of [])
    = Ok (true, rotated (rotated kick_T)) /\
  try_rotate_with_kicks (rotated (rotated kick_T)) (grid_of [])
    = Ok (true, rotated (rotated (rotated kick_T))) /\
  try_rotate_with_kicks (rotated (rotated (rotated kick_T))) (grid_of [])
    = Ok (true, rotated (rotated (rotated (rotated kick_T)))) /\
  0 <= piece_rotation kick_T < 4 /\
  rotated (rotated (rotated (rotated kick_T))) = kick_T.
Proof.
  repeat (split; [reflexivity|]).
  assert (Hr : 0 <= piece_rotation kick_T < 4) by (cbn; lia).
  split; [exact Hr|].
  refine (proj2 (proj2 (proj2 (proj2 (proj2
    (rotate_four_times_identity kick_T (rotated kick_T)
       (rotated (rotated kick_T)) (rotated (rotated (rotated kick_T)))
       (rotated (rotated (rotated (rotated kick_T)))) (grid_of [])
       eq_refl eq_refl eq_refl eq_refl eq_refl eq_refl eq_refl eq_refl))))) Hr).
Defined.

(** ** The dict of locked positions *)

Lemma get_Some_keys (k : Cell) (d : PyDict.t) (v : Color) :
  PyDict.get k d = Some v -> In k (PyDict.keys d).
Proof.
  induction d as [|[k' v'] rest IH]; simpl; [discriminate|].
  destruct (cell_eqb k k') eqn:E.
  - apply cell_eqb_spec in E. auto.
  - auto.
Qed.

Lemma keys_get_Some (k : Cell) (d : PyDict.t) :
  In k (PyDict.keys d) -> exists v, PyDict.get k d = Some v.
Proof.
  induction d as [|[k' v'] rest IH]; simpl; [contradiction|].
  intros H. destruct (cell_eqb k k') eqn:E; [eauto|].
  destruct H as [-> | H]; [|auto].
  rewrite cell_eqb_refl in E. discriminate.
Qed.

Lemma get_None_keys (k : Cell) (d : PyDict.t) :
  PyDict.get k d = None <-> ~ In k (PyDict.keys d).
Proof.
  split.
  - intros H Hin. apply keys_get_Some in Hin as [v Hv]. congruence.
  - intros H. destruct (PyDict.get k d) as [v|] eqn:E; auto.
    apply get_Some_keys in E. contradiction.
Qed.

Lemma get_set_eq (k : Cell) (v : Color) (d : PyDict.t) :
  PyDict.get k (PyDict.set k v d) = Some v.
Proof.
  induction d as [|[k' v'] rest IH]; simpl.
  - now rewrite cell_eqb_refl.
  - destruct (cell_eqb k k') eqn:E; simpl; rewrite E; auto.
Qed.

Lemma get_set_neq (k k' : Cell) (v : Color) (d : PyDict.t) :
  k <> k' -> PyDict.get k' (PyDict.set k v d) = PyDict.get k' d.
Proof.
  intros Hne. induction d as [|[k0 v0] rest IH]; simpl.
  - rewrite cell_eqb_neq; auto.
  - destruct (cell_eqb k k0) eqn:E; simpl.
    + apply cell_eqb_spec in E. subst k0.
      rewrite (cell_eqb_neq k' k); auto.
    + rewrite IH. reflexivity.
Qed.

Lemma keys_set (k k' : Cell) (v : Color) (d : PyDict.t) :
  In k' (PyDict.keys (PyDict.set k v d)) <-> k' = k \/ In k' (PyDict.keys d).
Proof.
  destruct (cell_eq_dec k k') as [<- | Hne].
  - split; [auto|]. intros _. apply (get_Some_keys _ _ v), get_set_eq.
  - split.
    + intros H. right. apply keys_get_Some in H as [c Hc].
      rewrite get_set_neq in Hc by assumption. eapply get_Some_keys; eauto.
    + intros [-> | H]; [congruence|].
      apply keys_get_Some in H as [c Hc].
      apply (get_Some_keys _ _ c). now rewrite get_set_neq.
Qed.

Lemma set_wf (k : Cell) (v : Color) (d : PyDict.t) :
  PyDict.wf d -> PyDict.wf (PyDict.set k v d).
Proof.
  unfold PyDict.wf. induction d as [|[k' v'] rest IH]; simpl; intros H.
  - repeat constructor. auto.
  - inversion H as [|? ? Hnot Hnd]; subst.
    destruct (cell_eqb k k') eqn:E; simpl.
    + constructor; auto.
    + constructor; [|auto].
      intros Hin. apply (keys_set k k' v rest) in Hin as [-> | Hin]; [|auto].
      rewrite cell_eqb_refl in E. discriminate.
Qed.

Lemma keys_remove (k k' : Cell) (d : PyDict.t) :
  In k' (PyDict.keys (PyDict.remove k d)) -> In k' (PyDict.keys d).
Proof.
  induction d as [|[k0 v0] rest IH]; simpl; auto.
  destruct (cell_eqb k k0); simpl; intuition.
Qed.

Lemma remove_wf (k : Cell) (d : PyDict.t) :
  PyDict.wf d -> PyDict.wf (PyDict.remove k d).
Proof.
  unfold PyDict.wf. induction d as [|[k' v'] rest IH]; simpl; intros H; auto.
  inversion H as [|? ? Hnot Hnd]; subst.
  destruct (cell_eqb k k'); simpl; auto.
  constructor; auto. intros Hin. apply keys_remove in Hin. auto.
Qed.

Lemma get_remove_neq (k k' : Cell) (d : PyDict.t) :
  k <> k' -> PyDict.get k' (PyDict.remove k d) = PyDict.get k' d.
Proof.
  intros Hne. induction d as [|[k0 v0] rest IH]; simpl; auto.
  destruct (cell_eqb k k0) eqn:E; simpl.
  - apply cell_eqb_spec in E. subst k0.
    rewrite (cell_eqb_neq k' k); auto.
  - rewrite IH. reflexivity.
Qed.

Lemma get_remove_eq (k : Cell) (d : PyDict.t) :
  PyDict.wf d -> PyDict.get k (PyDict.remove k d) = None.
Proof.
  unfold PyDict.wf. induction d as [|[k0 v0] rest IH]; simpl; intros H; auto.
  inversion H as [|? ? Hnot Hnd]; subst.
  destruct (cell_eqb k k0) eqn:E; simpl.
  - apply cell_eqb_spec in E. subst k0. now apply get_None_keys.
  - rewrite E. auto.
Qed.

(** ** lock_piece *)

Lemma lock_piece_loop_other (cells : list Cell) (color : Color) (d : PyDict.t) (k : Cell) :
  ~ In k cells ->
  PyDict.get k (lock_piece_loop cells color d) = PyDict.get k d.
Proof.
  revert d. induction cells as [|pos rest IH]; intros d Hn; simpl; auto.
  rewrite IH by (intros H; apply Hn; now right).
  apply get_set_neq. intros ->. apply Hn. now left.
Qed.

Lemma lock_piece_loop_cell (cells : list Cell) (color : Color) (d : PyDict.t) (k : Cell) :
  In k cells ->
  PyDict.get k (lock_piece_loop cells color d) = Some color.
Proof.
  revert d. induction cells as [|pos rest IH]; intros d Hin; simpl; [contradiction|].
  destruct (in_dec cell_eq_dec k rest) as [Hr | Hr]; [now apply IH|].
  destruct Hin as [-> | Hin]; [|contradiction].
  rewrite lock_piece_loop_other by assumption. apply get_set_eq.
Qed.

Lemma lock_piece_wf (p : Piece) (d : PyDict.t) :
  PyDict.wf d -> PyDict.wf (lock_piece p d).
Proof.
  unfold lock_piece. generalize (get_cells p) as cells. intros cells. revert d.
  induction cells as [|pos rest IH]; intros d Hwf; simpl; auto.
  apply IH, set_wf, Hwf.
Qed.

(** C5, as the code has it. For every piece whose placement
    [valid_space] accepts on some grid, and every locked store:
    [lock_piece] writes each occupied cell of the piece with the colour of
    the piece, each written coordinate has x in [0, 10) and y < 20, and no
    other key changes.  There is no lower bound on y: a cell of the piece
    with y < 0 is written like the others. *)
Theorem lock_piece_written_cells (piece : Piece) (grid : Grid) (locked : PyDict.t) :
  valid_space piece grid = Ok true ->
  (forall x y, In (x, y) (get_cells piece) ->
     PyDict.get (x, y) (lock_piece piece locked) = Some (piece_color piece) /\
     0 <= x < 10 /\ y < 20) /\
  (forall k, ~ In k (get_cells piece) ->
     PyDict.get k (lock_piece piece locked) = PyDict.get k locked).
Proof.
  intros Hv. split.
  - intros x y Hin. split.
    + now apply lock_piece_loop_cell.
    + pose proof (valid_space_true_bounds piece grid Hv (x, y) Hin) as Hb.
      unfold out_of_bounds, GRID_WIDTH, GRID_HEIGHT in Hb. simpl in Hb. lia.
  - intros k Hk. now apply lock_piece_loop_other.
Qed.

Lemma lock_piece_written_cells_witness :
  valid_space spawn_T (grid_of board_under_spawn) = Ok true /\
  PyDict.get (5, -1) (lock_piece spawn_T board_under_spawn) = Some (piece_color spawn_T) /\
  0 <= 5 < 10 /\ -1 < 20.
Proof.
  split; [reflexivity|].
  apply (proj1 (lock_piece_written_cells spawn_T (grid_of board_under_spawn)
                  board_under_spawn eq_refl) 5 (-1)).
  cbn. auto.
Defined.

(** C5, as the claim words it, fails: the T piece at the spawn position
    (5, 0) is validly placed over a locked cell at (5, 1), cannot move
    down, and locking it writes the key (5, -1). *)
Lemma lock_piece_writes_negative_y :
  valid_on spawn_T board_under_spawn = Ok true /\
  valid_on (set_y spawn_T (piece_y spawn_T + 1)) board_under_spawn = Ok false /\
  ~ (forall x y,
       In (x, y) (PyDict.keys (lock_piece spawn_T board_under_spawn)) ->
       ~ In (x, y) (PyDict.keys board_under_spawn) ->
       0 <= x < 10 /\ 0 <= y < 20).
Proof.
  split; [reflexivity|]. split; [reflexivity|].
  intros H. specialize (H 5 (-1)).
  assert (Hy : 0 <= 5 < 10 /\ 0 <= -1 < 20).
  { apply H.
    - cbn. tauto.
    - cbn. intros [Heq | []]. discriminate. }
  lia.
Qed.

(** ** check_lost *)

Lemma check_lost_loop_true (ks : list Cell) :
  check_lost_loop ks = true <-> exists x y, In (x, y) ks /\ y < 1.
Proof.
  induction ks as [|[x y] rest IH]; simpl.
  - split; [discriminate | intros [? [? [[] _]]]].
  - destruct (y <? 1) eqn:E.
    + apply Z.ltb_lt in E. split; auto. intros _. exists x, y. auto.
    + apply Z.ltb_ge in E. rewrite IH. split.
      * intros [x' [y' [Hin Hy]]]. exists x', y'. auto.
      * intros [x' [y' [[[= <- <-] | Hin] Hy]]]; [lia|]. exists x', y'. auto.
Qed.

(** C6. For every locked store, [check_lost] returns true if and only if
    some locked cell has y < 1; a store with a locked cell at (3, 0)
    reports lost, a store whose locked cells all have y >= 1 does not. *)
Theorem check_lost_spec (locked : PyDict.t) :
  (check_lost locked = true <->
   exists x y, In (x, y) (PyDict.keys locked) /\ y < 1) /\
  (In (3, 0) (PyDict.keys locked) -> check_lost locked = true) /\
  ((forall x y, In (x, y) (PyDict.keys locked) -> y >= 1) ->
   check_lost locked = false).
Proof.
  unfold check_lost. split; [apply check_lost_loop_true|]. split.
  - intros H. apply check_lost_loop_true. exists 3, 0. split; [exact H | lia].
  - intros H. destruct (check_lost_loop (PyDict.keys locked)) eqn:E; auto.
    apply check_lost_loop_true in E as [x [y [Hin Hy]]].
    specialize (H x y Hin). lia.
Qed.

Lemma check_lost_spec_witness :
  In (3, 0) (PyDict.keys [((4, 19), COLOR_O); ((3, 0), COLOR_I)]) /\
  check_lost [((4, 19), COLOR_O); ((3, 0), COLOR_I)] = true.
Proof.
  assert (H : In (3, 0) (PyDict.keys [((4, 19), COLOR_O); ((3, 0), COLOR_I)])).
  { cbn. tauto. }
  split; [exact H|].
  exact (proj1 (proj2 (check_lost_spec [((4, 19), COLOR_O); ((3, 0), COLOR_I)])) H).
Defined.

(** ** Hard drop *)

Lemma valid_on_grid_of (p : Piece) (locked : PyDict.t) :
  valid_on p locked = valid_space p (grid_of locked).
Proof. unfold valid_on. now rewrite create_grid_grid_of. Qed.

Lemma valid_on_total (p : Piece) (locked : PyDict.t) :
  exists b, valid_on p locked = Ok b.
Proof.
  rewrite valid_on_grid_of.
  destruct (valid_space_wf p (grid_of locked) (grid_of_wf locked)) as [b [H _]].
  eauto.
Qed.

(** A valid placement has its pivot above the bottom of the grid. *)
Lemma valid_on_pivot_row (p : Piece) (locked : PyDict.t) :
  valid_on p locked = Ok true -> piece_y p < GRID_HEIGHT.
Proof.
  rewrite valid_on_grid_of. intros H.
  pose proof (valid_space_true_bounds p _ H _ (get_cells_pivot p)) as Hb.
  unfold out_of_bounds in Hb. simpl in Hb. lia.
Qed.

Lemma set_y_up_down (p : Piece) :
  set_y (set_y p (piece_y p + 1)) (piece_y (set_y p (piece_y p + 1)) - 1) = p.
Proof. destruct p as [x y idx r]. unfold set_y. cbn. f_equal. lia. Qed.

Lemma set_y_down_up (p : Piece) :
  set_y (set_y p (piece_y p - 1)) (piece_y (set_y p (piece_y p - 1)) + 1) = p.
Proof. destruct p as [x y idx r]. unfold set_y. cbn. f_equal. lia. Qed.

(** The loop stops at the first row where the placement is invalid, after
    at most [GRID_HEIGHT - piece_y + 1] tests. *)
Lemma hard_drop_loop_stops (locked : PyDict.t) (n : nat) :
  forall p,
    valid_on p locked = Ok true ->
    GRID_HEIGHT - piece_y p <= Z.of_nat n ->
    exists p',
      (forall fuel, (S n <= fuel)%nat ->
                    hard_drop_loop fuel p locked = Some (Ok p')) /\
      valid_on p' locked = Ok false /\
      valid_on (set_y p' (piece_y p' - 1)) locked = Ok true /\
      piece_x p' = piece_x p /\
      piece_rotation p' = piece_rotation p /\
      piece_shape_index p' = piece_shape_index p /\
      piece_y p < piece_y p'.
Proof.
  induction n as [|m IH]; intros p Hv Hn.
  - apply valid_on_pivot_row in Hv. lia.
  - destruct (valid_on_total (set_y p (piece_y p + 1)) locked) as [[|] Hnext].
    + destruct (IH (set_y p (piece_y p + 1)) Hnext) as [p' [Hloop [Hbad [Hgood [Hx [Hr [Hi Hy]]]]]]].
      { unfold set_y; cbn [piece_y]; lia. }
      exists p'. split; [|repeat split; auto].
      * intros [|fuel] Hf; [lia|]. cbn [hard_drop_loop]. rewrite Hv.
        apply Hloop. lia.
      * unfold set_y in Hy; cbn [piece_y] in Hy; lia.
    + exists (set_y p (piece_y p + 1)). split; [|repeat split; auto].
      * intros [|[|fuel]] Hf; [lia|lia|]. cbn [hard_drop_loop].
        rewrite Hv. now rewrite Hnext.
      * now rewrite set_y_up_down.
      * unfold set_y; cbn [piece_y]; lia.
Qed.

(** C10. For every locked store and every piece validly placed on its
    grid, the hard drop terminates: with any iteration budget of at least
    [GRID_HEIGHT + 1 - piece_y] it returns one and the same piece.  That
    piece is validly placed, one row further down it would not be, and its
    pivot column and rotation index (and shape) are those of the piece
    before the drop. *)
Theorem hard_drop_spec (piece : Piece) (locked : PyDict.t) :
  valid_on piece locked = Ok true ->
  exists piece',
    (forall fuel, (drop_fuel piece <= fuel)%nat ->
                  hard_drop fuel piece locked = Some (Ok piece')) /\
    valid_on piece' locked = Ok true /\
    valid_on (set_y piece' (piece_y piece' + 1)) locked = Ok false /\
    piece_x piece' = piece_x piece /\
    piece_rotation piece' = piece_rotation piece /\
    piece_shape_index piece' = piece_shape_index piece /\
    piece_y piece <= piece_y piece'.
Proof.
  intros Hv. pose proof (valid_on_pivot_row piece locked Hv) as Hy.
  destruct (hard_drop_loop_stops locked (Z.to_nat (GRID_HEIGHT - piece_y piece))
              piece Hv) as [p' [Hloop [Hbad [Hgood [Hx [Hr [Hi Hlt]]]]]]]; [lia|].
  exists (set_y p' (piece_y p' - 1)). split; [|repeat split; auto].
  - intros fuel Hf. unfold hard_drop. rewrite Hloop; [reflexivity|].
    unfold drop_fuel in Hf. lia.
  - now rewrite set_y_down_up.
  - unfold set_y; cbn [piece_y]; lia.
Qed.

Lemma hard_drop_spec_witness :
  valid_on spawn_T board_drop = Ok true /\
  exists piece',
    (forall fuel, (drop_fuel spawn_T <= fuel)%nat ->
                  hard_drop fuel spawn_T board_drop = Some (Ok piece')) /\
    valid_on piece' board_drop = Ok true /\
    valid_on (set_y piece' (piece_y piece' + 1)) board_drop = Ok false /\
    piece_x piece' = piece_x spawn_T /\
    piece_rotation piece' = piece_rotation spawn_T /\
    piece_shape_index piece' = piece_shape_index spawn_T /\
    piece_y spawn_T <= piece_y piece'.
Proof.
  split; [reflexivity | exact (hard_drop_spec spawn_T board_drop eq_refl)].
Defined.

(** ** clear_rows: the completed rows *)

Lemma filled_atb_spec (g : Grid) (x y : Z) :
  filled_atb g x y = true <-> filled_at g x y.
Proof.
  unfold filled_atb, filled_at. destruct (cell_at g x y) as [c|].
  - rewrite negb_true_iff. split.
    + intros E. exists c. split; auto. intros ->.
      rewrite (proj2 (color_eqb_spec BLACK BLACK) eq_refl) in E. discriminate.
    + intros [c' [[= <-] Hne]]. destruct (color_eqb c BLACK) eqn:E; auto.
      apply color_eqb_spec in E. contradiction.
  - split; [discriminate | intros [c [H _]]; discriminate].
Qed.

Lemma row_completedb_spec (g : Grid) (y : Z) :
  row_completedb g y = true <-> row_completed g y.
Proof.
  unfold row_completedb, row_completed. rewrite forallb_forall. split.
  - intros H x Hx. apply filled_atb_spec, H, range_In, Hx.
  - intros H x Hx. apply filled_atb_spec, H, range_In, Hx.
Qed.

Lemma completed_rows_In (g : Grid) (y : Z) :
  In y (completed_rows g) <-> 0 <= y < GRID_HEIGHT /\ row_completed g y.
Proof.
  unfold completed_rows. now rewrite filter_In, range_In, row_completedb_spec.
Qed.

Lemma range_NoDup (n : Z) : NoDup (PyList.range n).
Proof.
  unfold PyList.range. apply Injective_map_NoDup.
  - intros a b H. lia.
  - apply seq_NoDup.
Qed.

Lemma completed_rows_NoDup (g : Grid) : NoDup (completed_rows g).
Proof. apply NoDup_filter, range_NoDup. Qed.

Lemma row_full_spec (row : list Color) :
  row_full row = true <-> forall c, In c row -> c <> BLACK.
Proof.
  unfold row_full. rewrite negb_true_iff. split.
  - intros H c Hin ->.
    assert (Hex : existsb (fun c => color_eqb BLACK c) row = true).
    { apply existsb_exists. exists BLACK.
      split; [exact Hin | now apply color_eqb_spec]. }
    congruence.
  - intros H. destruct (existsb (fun c => color_eqb BLACK c) row) eqn:E; auto.
    apply existsb_exists in E as [c [Hin Hc]]. apply color_eqb_spec in Hc.
    subst c. exfalso. now apply (H BLACK).
Qed.

(** [BLACK not in grid[y]] says that row [y] is completed. *)
Lemma row_full_completed (g : Grid) (y : Z) (row : list Color) :
  0 <= y < GRID_HEIGHT ->
  nth_error g (Z.to_nat y) = Some row ->
  PyList.len row = GRID_WIDTH ->
  row_full row = row_completedb g y.
Proof.
  intros Hy Hnth Hlen. apply eq_true_iff_eq.
  rewrite row_full_spec, row_completedb_spec. unfold row_completed, filled_at.
  assert (Hcell : forall x, 0 <= x < GRID_WIDTH ->
                            cell_at g x y = nth_error row (Z.to_nat x)).
  { intros x Hx. unfold cell_at.
    rewrite (proj2 (in_range_iff x y) (conj Hx Hy)), Hnth. reflexivity. }
  split.
  - intros H x Hx. rewrite (Hcell x Hx).
    destruct (nth_error row (Z.to_nat x)) as [c|] eqn:E.
    + exists c. split; auto. apply H. eapply nth_error_In; eauto.
    + apply nth_error_None in E. unfold PyList.len in Hlen. lia.
  - intros H c Hin. apply In_nth_error in Hin as [n Hn].
    assert (Hlt : (n < length row)%nat) by (apply nth_error_Some; congruence).
    unfold PyList.len in Hlen.
    destruct (H (Z.of_nat n)) as [c' [Hc' Hne]]; [lia|].
    rewrite Hcell in Hc' by lia. rewrite Nat2Z.id in Hc'. congruence.
Qed.

Lemma rows_to_clear_wf (g : Grid) :
  grid_wf g -> rows_to_clear g = Ok (completed_rows g).
Proof.
  intros Hwf. unfold rows_to_clear, completed_rows. apply filterM_pure.
  intros y Hy. apply range_In in Hy.
  destruct (grid_row_wf g y Hwf Hy) as [row [Hget [Hnth Hlen]]].
  rewrite Hget. cbn [bind]. f_equal. now apply row_full_completed.
Qed.

Lemma filter_all_false {A : Type} (p : A -> bool) (l : list A) :
  (forall a, In a l -> p a = false) -> filter p l = [].
Proof.
  induction l as [|a t IH]; intros H; simpl; auto.
  rewrite (H a (or_introl eq_refl)). apply IH. intros b Hb. apply H. now right.
Qed.

(** C8. For every 20 by 10 grid in which each row has an empty cell, and
    every locked store, [clear_rows] returns 0 and the store is the one it
    was given. *)
Theorem clear_rows_no_completed_row (grid : Grid) (locked : PyDict.t) :
  grid_wf grid ->
  (forall y, 0 <= y < 20 -> exists x, 0 <= x < 10 /\ empty_at grid x y) ->
  clear_rows grid locked = Ok (0, locked).
Proof.
  intros Hwf Hrows. unfold clear_rows. rewrite (rows_to_clear_wf grid Hwf).
  cbn [bind]. replace (completed_rows grid) with (@nil Z); [reflexivity|].
  symmetry. apply filter_all_false. intros y Hy. apply range_In in Hy.
  destruct (row_completedb grid y) eqn:E; auto.
  apply row_completedb_spec in E.
  destruct (Hrows y Hy) as [x [Hx He]].
  destruct (E x Hx) as [c [Hc Hne]]. unfold empty_at in He. congruence.
Qed.

Lemma clear_rows_no_completed_row_witness :
  grid_wf (grid_of board_drop) /\
  (forall y, 0 <= y < 20 ->
             exists x, 0 <= x < 10 /\ empty_at (grid_of board_drop) x y) /\
  clear_rows (grid_of board_drop) board_drop = Ok (0, board_drop).
Proof.
  assert (Hwf : grid_wf (grid_of board_drop)).
  { split; [reflexivity | vm_compute; repeat constructor]. }
  assert (Hrows : forall y, 0 <= y < 20 ->
             exists x, 0 <= x < 10 /\ empty_at (grid_of board_drop) x y).
  { intros y Hy. exists 0. split; [lia|].
    assert (Hc : y = 0 \/ y = 1 \/ y = 2 \/ y = 3 \/ y = 4 \/ y = 5 \/ y = 6 \/
                 y = 7 \/ y = 8 \/ y = 9 \/ y = 10 \/ y = 11 \/ y = 12 \/
                 y = 13 \/ y = 14 \/ y = 15 \/ y = 16 \/ y = 17 \/ y = 18 \/
                 y = 19) by lia.
    repeat (destruct Hc as [-> | Hc]; [reflexivity|]). subst y. reflexivity. }
  split; [exact Hwf|]. split; [exact Hrows|].
  exact (clear_rows_no_completed_row (grid_of board_drop) board_drop Hwf Hrows).
Defined.

(** ** clear_rows: deleting the completed rows *)

Lemma remove_absent (k : Cell) (d : PyDict.t) :
  PyDict.get k d = None -> PyDict.remove k d = d.
Proof.
  induction d as [|[k' v'] rest IH]; simpl; auto.
  destruct (cell_eqb k k'); [discriminate|].
  intros H. now rewrite IH.
Qed.

(** With the [KeyError] caught, the deletion is a removal that never
    raises. *)
Lemma del_if_present_eq (k : Cell) (d : PyDict.t) :
  del_if_present k d = Ok (PyDict.remove k d).
Proof.
  unfold del_if_present, PyDict.delitem.
  destruct (PyDict.get k d) eqn:E; [reflexivity|].
  now rewrite remove_absent.
Qed.

Lemma get_remove_mono (k k' : Cell) (d : PyDict.t) (v : Color) :
  PyDict.wf d ->
  PyDict.get k' (PyDict.remove k d) = Some v -> PyDict.get k' d = Some v.
Proof.
  intros Hwf. destruct (cell_eq_dec k k') as [<- | Hne].
  - rewrite get_remove_eq by assumption. discriminate.
  - now rewrite get_remove_neq.
Qed.

Lemma delete_row_loop_spec (xs : list Z) (y : Z) :
  forall d, PyDict.wf d ->
  exists d', delete_row_loop xs y d = Ok d' /\ PyDict.wf d' /\
    (forall x, In x xs -> PyDict.get (x, y) d' = None) /\
    (forall k, (forall x, In x xs -> k <> (x, y)) ->
               PyDict.get k d' = PyDict.get k d) /\
    (forall k v, PyDict.get k d' = Some v -> PyDict.get k d = Some v).
Proof.
  induction xs as [|x rest IH]; intros d Hwf; cbn [delete_row_loop].
  - exists d. repeat split; auto. intros x [].
  - rewrite del_if_present_eq. cbn [bind].
    destruct (IH (PyDict.remove (x, y) d) (remove_wf _ _ Hwf))
      as [d' [Hrun [Hwf' [Hdel [Hkeep Hmono]]]]].
    exists d'. split; [exact Hrun|]. split; [exact Hwf'|]. split; [|split].
    + intros x0 [<- | Hin]; [|now apply Hdel].
      destruct (PyDict.get (x, y) d') as [v|] eqn:E; auto.
      apply Hmono in E. rewrite get_remove_eq in E by assumption. discriminate.
    + intros k Hk. rewrite Hkeep by (intros x0 Hx0; apply Hk; now right).
      apply get_remove_neq. intros <-. apply (Hk x); [now left | reflexivity].
    + intros k v Hv. apply Hmono in Hv. eapply get_remove_mono; eauto.
Qed.

Lemma delete_rows_loop_spec (rows : list Z) :
  forall d, PyDict.wf d ->
  exists d', delete_rows_loop rows d = Ok d' /\ PyDict.wf d' /\
    (forall x y, In y rows -> 0 <= x < GRID_WIDTH -> PyDict.get (x, y) d' = None) /\
    (forall x y, ~ In y rows -> PyDict.get (x, y) d' = PyDict.get (x, y) d) /\
    (forall k v, PyDict.get k d' = Some v -> PyDict.get k d = Some v).
Proof.
  induction rows as [|y rest IH]; intros d Hwf; cbn [delete_rows_loop].
  - exists d. repeat split; auto. intros x y [].
  - destruct (delete_row_loop_spec (PyList.range GRID_WIDTH) y d Hwf)
      as [d1 [Hrun1 [Hwf1 [Hdel1 [Hkeep1 Hmono1]]]]].
    rewrite Hrun1. cbn [bind].
    destruct (IH d1 Hwf1) as [d' [Hrun [Hwf' [Hdel [Hkeep Hmono]]]]].
    exists d'. split; [exact Hrun|]. split; [exact Hwf'|]. split; [|split].
    + intros x y0 Hin Hx.
      destruct (in_dec Z.eq_dec y0 rest) as [Hr | Hr]; [now apply Hdel|].
      destruct Hin as [<- | Hin]; [|contradiction].
      rewrite Hkeep by assumption. apply Hdel1, range_In, Hx.
    + intros x y0 Hn. rewrite Hkeep by (intros H; apply Hn; now right).
      apply Hkeep1. intros x0 _ [= _ ->]. apply Hn. now left.
    + intros k v Hv. auto.
Qed.

(** ** clear_rows: the order of the moves *)

Lemma insert_desc_perm (k : Cell) (l : list Cell) :
  Permutation (k :: l) (insert_desc k l).
Proof.
  induction l as [|h t IH]; simpl; auto.
  destruct (snd k <? snd h); auto.
  rewrite perm_swap. now constructor.
Qed.

Lemma sorted_by_y_desc_perm (l : list Cell) :
  Permutation l (sorted_by_y_desc l).
Proof.
  induction l as [|k t IH]; simpl; auto.
  rewrite <- insert_desc_perm. now constructor.
Qed.

Lemma insert_desc_sorted (k : Cell) (l : list Cell) :
  StronglySorted desc_y l -> StronglySorted desc_y (insert_desc k l).
Proof.
  induction l as [|h t IH]; intros Hs; simpl.
  - repeat constructor.
  - inversion Hs as [|? ? Hst Hall]; subst.
    destruct (snd k <? snd h) eqn:E.
    + apply Z.ltb_lt in E. constructor; [auto|].
      apply (Permutation_Forall (insert_desc_perm k t)).
      constructor; [unfold desc_y; lia | exact Hall].
    + apply Z.ltb_ge in E. constructor; [exact Hs|].
      constructor; [exact E|].
      eapply Forall_impl; [|exact Hall]. unfold desc_y. intros a Ha. lia.
Qed.

Lemma sorted_by_y_desc_sorted (l : list Cell) :
  StronglySorted desc_y (sorted_by_y_desc l).
Proof.
  induction l as [|k t IH]; simpl; [constructor | now apply insert_desc_sorted].
Qed.

(** The sort is stable: keys of one row keep their order. *)
Lemma sorted_by_y_desc_stable (l : list Cell) (y : Z) :
  filter (fun k => snd k =? y) (sorted_by_y_desc l) =
  filter (fun k => snd k =? y) l.
Proof.
  induction l as [|k t IH]; simpl; auto.
  rewrite <- IH. generalize (sorted_by_y_desc t) as s. intros s.
  induction s as [|h s IHs]; simpl; auto.
  destruct (snd k <? snd h) eqn:E; simpl.
  - rewrite IHs. apply Z.ltb_lt in E.
    destruct (snd k =? y) eqn:Ek, (snd h =? y) eqn:Eh; auto.
    apply Z.eqb_eq in Ek, Eh. lia.
  - reflexivity.
Qed.

(** ** clear_rows: the shift *)

Lemma shift_of_rows_below (rows : list Z) (y : Z) :
  shift_of rows y = rows_below rows y.
Proof. reflexivity. Qed.

Lemma rows_below_nonneg (rows : list Z) (y : Z) : 0 <= rows_below rows y.
Proof. unfold rows_below, PyList.len. lia. Qed.

Lemma rows_below_nil (y : Z) : rows_below [] y = 0.
Proof. reflexivity. Qed.

(** One row up, the count grows by the occurrences of that row. *)
Lemma rows_below_pred (rows : list Z) (y : Z) :
  rows_below rows (y - 1) =
  rows_below rows y + PyList.len (filter (fun r => r =? y) rows).
Proof.
  unfold rows_below, PyList.len.
  induction rows as [|r t IH]; cbn [filter]; [reflexivity|].
  destruct (Z.ltb_spec (y - 1) r), (Z.ltb_spec y r), (Z.eqb_spec r y);
    cbn [length]; rewrite ?Nat2Z.inj_succ; lia.
Qed.

Lemma count_row_NoDup (rows : list Z) (y : Z) :
  NoDup rows -> PyList.len (filter (fun r => r =? y) rows) <= 1.
Proof.
  unfold PyList.len. induction rows as [|r t IH]; intros Hnd; cbn [filter].
  - cbn [length]. lia.
  - inversion Hnd as [|? ? Hnot Hnd']; subst.
    destruct (Z.eqb_spec r y) as [-> | Hne]; [|auto].
    rewrite filter_all_false; [cbn [length]; lia|].
    intros a Ha. apply Z.eqb_neq. intros ->. contradiction.
Qed.

Lemma count_row_absent (rows : list Z) (y : Z) :
  ~ In y rows -> PyList.len (filter (fun r => r =? y) rows) = 0.
Proof.
  intros Hn. rewrite filter_all_false; [reflexivity|].
  intros a Ha. apply Z.eqb_neq. intros ->. contradiction.
Qed.

Lemma rows_below_step (rows : list Z) (y : Z) :
  NoDup rows -> rows_below rows (y - 1) <= rows_below rows y + 1.
Proof.
  intros Hnd. rewrite rows_below_pred.
  pose proof (count_row_NoDup rows y Hnd). lia.
Qed.

Lemma rows_below_gap (rows : list Z) (y : Z) (n : nat) :
  NoDup rows -> ~ In y rows ->
  rows_below rows (y - 1 - Z.of_nat n) <= rows_below rows y + Z.of_nat n.
Proof.
  intros Hnd Hn. induction n as [|m IH].
  - replace (y - 1 - Z.of_nat 0) with (y - 1) by lia.
    rewrite rows_below_pred, count_row_absent by assumption. lia.
  - replace (y - 1 - Z.of_nat (S m)) with (y - 1 - Z.of_nat m - 1) by lia.
    pose proof (rows_below_step rows (y - 1 - Z.of_nat m) Hnd). lia.
Qed.

(** A cell of a row that stays lands strictly below every cell that
    started above it: moves never collide. *)
Lemma moved_rows_ordered (rows : list Z) (y2 y : Z) :
  NoDup rows -> ~ In y rows -> y2 < y ->
  y2 + rows_below rows y2 < y + rows_below rows y.
Proof.
  intros Hnd Hn Hlt.
  pose proof (rows_below_gap rows y (Z.to_nat (y - 1 - y2)) Hnd Hn) as H.
  replace (y - 1 - Z.of_nat (Z.to_nat (y - 1 - y2))) with y2 in H by lia.
  lia.
Qed.

(** ** clear_rows: moving the remaining cells *)

(** One iteration of the move loop on a key of the store. *)
Lemma move_step (rows : list Z) (k : Cell) (d : PyDict.t) :
  PyDict.wf d -> In k (PyDict.keys d) ->
  exists d1,
    (forall rest, move_loop rows (k :: rest) d = move_loop rows rest d1) /\
    PyDict.wf d1 /\
    PyDict.get (moved_to rows k) d1 = PyDict.get k d /\
    (forall k', k' <> k -> k' <> moved_to rows k ->
                PyDict.get k' d1 = PyDict.get k' d) /\
    (moved_to rows k <> k -> PyDict.get k d1 = None).
Proof.
  intros Hwf Hin. destruct k as [x y].
  destruct (keys_get_Some _ _ Hin) as [c Hc].
  unfold moved_to. cbn [fst snd]. rewrite <- shift_of_rows_below.
  destruct (shift_of rows y >? 0) eqn:E.
  - exists (PyDict.set (x, y + shift_of rows y) c (PyDict.remove (x, y) d)).
    assert (Hne : (x, y + shift_of rows y) <> (x, y)).
    { intros [= H]. apply Z.gtb_lt in E. lia. }
    split; [|split; [|split; [|split]]].
    + intros rest. cbn [move_loop]. rewrite E.
      unfold PyDict.pop. rewrite Hc. reflexivity.
    + apply set_wf, remove_wf, Hwf.
    + rewrite get_set_eq. now rewrite Hc.
    + intros k' H1 H2. rewrite get_set_neq by congruence.
      apply get_remove_neq. congruence.
    + intros _. rewrite get_set_neq by assumption. now apply get_remove_eq.
  - assert (Hz : shift_of rows y = 0).
    { pose proof (rows_below_nonneg rows y) as Hnn.
      rewrite <- shift_of_rows_below in Hnn.
      rewrite Z.gtb_ltb in E. apply Z.ltb_ge in E. lia. }
    exists d. rewrite Hz, Z.add_0_r.
    split; [|split; [|split; [|split]]]; auto.
    + intros rest. cbn [move_loop]. now rewrite E.
    + intros H. contradiction.
Qed.

(** A key later in the descending order is never the target of a move. *)
Lemma moved_to_not_later (rows : list Z) (k k2 : Cell) :
  desc_y k k2 -> k2 <> k -> moved_to rows k <> k2.
Proof.
  unfold desc_y, moved_to. destruct k as [x y], k2 as [x2 y2]. cbn [fst snd].
  intros Hle Hne [= <- H]. pose proof (rows_below_nonneg rows y).
  apply Hne. f_equal. lia.
Qed.

(** Two keys of rows that stay do not move to the same place. *)
Lemma moved_to_distinct (rows : list Z) (k k2 : Cell) :
  NoDup rows -> ~ In (snd k) rows -> desc_y k k2 -> k2 <> k ->
  moved_to rows k <> moved_to rows k2.
Proof.
  unfold desc_y, moved_to. destruct k as [x y], k2 as [x2 y2]. cbn [fst snd].
  intros Hnd Hn Hle Hne [= <- H].
  assert (Hlt : y2 < y).
  { destruct (Z.eq_dec y2 y) as [-> | Hd]; [now contradiction Hne | lia]. }
  pose proof (moved_rows_ordered rows y2 y Hnd Hn Hlt). lia.
Qed.

Lemma move_loop_spec (rows : list Z) :
  NoDup rows ->
  forall todo d,
    NoDup todo -> StronglySorted desc_y todo -> PyDict.wf d ->
    (forall k, In k todo -> In k (PyDict.keys d)) ->
    exists d',
      move_loop rows todo d = Ok d' /\ PyDict.wf d' /\
      (forall k, In k todo -> ~ In (snd k) rows ->
                 PyDict.get (moved_to rows k) d' = PyDict.get k d) /\
      (forall k', (forall k, In k todo -> k' <> k /\ k' <> moved_to rows k) ->
                  PyDict.get k' d' = PyDict.get k' d) /\
      (forall k', In k' todo ->
                  (forall k, In k todo -> k' <> moved_to rows k) ->
                  PyDict.get k' d' = None).
Proof.
  intros Hrows. induction todo as [|k rest IH]; intros d Hnd Hsorted Hwf Hkeys.
  - exists d. cbn [move_loop]. repeat split; auto.
    + intros k [].
    + intros k' [].
  - inversion Hnd as [|? ? Hnotin Hnd']; subst.
    inversion Hsorted as [|? ? Hsorted' Hall]; subst.
    rewrite Forall_forall in Hall.
    destruct (move_step rows k d Hwf (Hkeys k (or_introl eq_refl)))
      as [d1 [Hrun [Hwf1 [Hmoved1 [Hother1 Hgone1]]]]].
    assert (Hne : forall k2, In k2 rest -> k2 <> k).
    { intros k2 H2 ->. contradiction. }
    assert (Hnl : forall k2, In k2 rest -> moved_to rows k <> k2).
    { intros k2 H2. apply moved_to_not_later; auto. }
    assert (Hkeys1 : forall k2, In k2 rest -> In k2 (PyDict.keys d1)).
    { intros k2 H2.
      destruct (keys_get_Some _ _ (Hkeys k2 (or_intror H2))) as [v Hv].
      apply (get_Some_keys _ _ v). rewrite Hother1; auto.
      intros E. apply (Hnl k2 H2). now symmetry. }
    destruct (IH d1 Hnd' Hsorted' Hwf1 Hkeys1)
      as [d' [Hrun' [Hwf' [Hmoved [Hother Hgone]]]]].
    exists d'. split; [now rewrite Hrun|]. split; [exact Hwf'|].
    split; [|split].
    + intros k0 [<- | Hin] Hgood.
      * rewrite Hother; [exact Hmoved1|].
        intros k2 H2. split; [now apply Hnl|].
        apply moved_to_distinct; auto.
      * rewrite Hmoved by assumption. apply Hother1; [now apply Hne|].
        intros E. apply (Hnl k0 Hin). now symmetry.
    + intros k' Hk'. rewrite Hother.
      * apply Hother1; apply (Hk' k (or_introl eq_refl)).
      * intros k2 H2. apply Hk'. now right.
    + intros k' [<- | Hin] Hk'.
      * rewrite Hother.
        -- apply Hgone1. intros E. apply (Hk' k (or_introl eq_refl)). now symmetry.
        -- intros k2 H2. split.
           ++ intros ->. contradiction.
           ++ apply Hk'. now right.
      * apply Hgone; auto. intros k2 H2. apply Hk'. now right.
Qed.

(** ** clear_rows *)

Lemma moved_to_nil (k : Cell) : moved_to [] k = k.
Proof. destruct k as [x y]. unfold moved_to. cbn. f_equal. lia. Qed.

(** What [clear_rows] does on any 20 by 10 grid and any store.  The last
    part needs the keys of the completed rows to lie in the columns of the
    grid, so that the deletion loop reaches them. *)
Lemma clear_rows_general (g : Grid) (locked : PyDict.t) :
  grid_wf g -> PyDict.wf locked ->
  exists locked',
    clear_rows g locked = Ok (PyList.len (completed_rows g), locked') /\
    PyDict.wf locked' /\
    (forall k c, PyDict.get k locked = Some c ->
                 ~ In (snd k) (completed_rows g) ->
                 PyDict.get (moved_to (completed_rows g) k) locked' = Some c) /\
    ((forall x y, In (x, y) (PyDict.keys locked) -> In y (completed_rows g) ->
                  0 <= x < GRID_WIDTH) ->
     forall k' c, PyDict.get k' locked' = Some c ->
                  exists k, ~ In (snd k) (completed_rows g) /\
                            k' = moved_to (completed_rows g) k /\
                            PyDict.get k locked = Some c).
Proof.
  intros Hg Hwf. unfold clear_rows. rewrite (rows_to_clear_wf g Hg). cbn [bind].
  pose proof (completed_rows_NoDup g) as Hnd.
  destruct (completed_rows g) as [|r t] eqn:Erows.
  - exists locked. split; [reflexivity|]. split; [exact Hwf|]. split.
    + intros k c Hk _. now rewrite moved_to_nil.
    + intros _ k' c Hk'. exists k'. rewrite moved_to_nil. auto.
  - remember (r :: t) as rows eqn:Hrows.
    destruct (delete_rows_loop_spec rows locked Hwf)
      as [d1 [Hdel [Hwf1 [Hgone1 [Hkeep1 Hmono1]]]]].
    rewrite Hdel. cbn [bind].
    pose proof (sorted_by_y_desc_perm (PyDict.keys d1)) as Hperm.
    destruct (move_loop_spec rows Hnd (sorted_by_y_desc (PyDict.keys d1)) d1)
      as [d' [Hrun [Hwf' [Hmoved [Hother Hvac]]]]].
    { eapply Permutation_NoDup; [exact Hperm | exact Hwf1]. }
    { apply sorted_by_y_desc_sorted. }
    { exact Hwf1. }
    { intros k Hk. eapply Permutation_in; [symmetry; exact Hperm | exact Hk]. }
    rewrite Hrun. cbn [bind].
    exists d'. split; [now subst rows|]. split; [exact Hwf'|]. split.
    + intros [x y] c Hk Hgood. cbn [snd] in Hgood.
      assert (Hk1 : PyDict.get (x, y) d1 = Some c) by (now rewrite Hkeep1).
      rewrite Hmoved; auto.
      eapply Permutation_in; [exact Hperm | eapply get_Some_keys; eauto].
    + intros Hcols k' c Hk'.
      assert (Hgood : forall k, In k (sorted_by_y_desc (PyDict.keys d1)) ->
                                ~ In (snd k) rows).
      { intros [x y] Hk Hy. cbn [snd] in Hy.
        apply (Permutation_in _ (Permutation_sym Hperm)) in Hk.
        destruct (keys_get_Some _ _ Hk) as [v Hv].
        pose proof (Hmono1 _ _ Hv) as Hv0.
        rewrite (Hgone1 x y Hy) in Hv; [discriminate|].
        apply (Hcols x y); [eapply get_Some_keys; eauto | exact Hy]. }
      destruct (in_dec cell_eq_dec k'
                  (map (moved_to rows) (sorted_by_y_desc (PyDict.keys d1))))
        as [Himg | Himg].
      * apply in_map_iff in Himg as [k [<- Hk]].
        exists k. split; [now apply Hgood|]. split; [reflexivity|].
        rewrite Hmoved in Hk' by (auto using Hgood).
        destruct k as [x y]. rewrite Hkeep1 in Hk'; [exact Hk'|].
        apply (Hgood (x, y) Hk).
      * exfalso.
        assert (Hnot : forall k, In k (sorted_by_y_desc (PyDict.keys d1)) ->
                                 k' <> moved_to rows k).
        { intros k Hk ->. apply Himg. now apply in_map. }
        destruct (in_dec cell_eq_dec k' (sorted_by_y_desc (PyDict.keys d1)))
          as [Hin | Hin].
        -- rewrite (Hvac k' Hin Hnot) in Hk'. discriminate.
        -- rewrite Hother in Hk'.
           ++ apply Hin. eapply Permutation_in; [exact Hperm|].
              eapply get_Some_keys; eauto.
           ++ intros k Hk. split; [|now apply Hnot].
              intros ->. contradiction.
Qed.

Lemma rows_below_single (r y : Z) :
  rows_below [r] y = if y <? r then 1 else 0.
Proof.
  unfold rows_below. cbn [filter]. destruct (y <? r); reflexivity.
Qed.

Ltac concrete_wf :=
  unfold PyDict.wf; vm_compute;
  repeat (constructor; [intros H; cbn in H; intuition discriminate|]);
  constructor.

Ltac concrete_grid_wf :=
  split; [reflexivity | vm_compute; repeat constructor].

(** C3, as the code has it. For every 20 by 10 grid and every locked store
    whose cells lie inside the grid: [clear_rows] returns the number of
    completed rows; every locked cell (x, y) of a row that is not
    completed is afterwards at (x, y + s) with its colour, s the number of
    completed rows below it; and every cell of the store afterwards is
    such a moved cell, so the cells of the completed rows are gone and no
    cell is lost or overwritten.  When row 5 is the only completed row the
    count is 1, the cell at (x, y + 1) afterwards is the cell at (x, y)
    before for every y < 5, and the cells with y > 5 are unchanged.  Row 5
    itself then holds what row 4 held. *)
Theorem clear_rows_spec (grid : Grid) (locked : PyDict.t) :
  grid_wf grid -> PyDict.wf locked -> locked_in_grid locked ->
  exists locked',
    clear_rows grid locked = Ok (PyList.len (completed_rows grid), locked') /\
    (forall x y c,
       PyDict.get (x, y) locked = Some c -> ~ In y (completed_rows grid) ->
       PyDict.get (x, y + rows_below (completed_rows grid) y) locked' = Some c) /\
    (forall x y' c,
       PyDict.get (x, y') locked' = Some c ->
       exists y, ~ In y (completed_rows grid) /\
                 y' = y + rows_below (completed_rows grid) y /\
                 PyDict.get (x, y) locked = Some c) /\
    (completed_rows grid = [5] ->
     PyList.len (completed_rows grid) = 1 /\
     (forall x y, y < 5 ->
        PyDict.get (x, y + 1) locked' = PyDict.get (x, y) locked) /\
     (forall x y, 5 < y ->
        PyDict.get (x, y) locked' = PyDict.get (x, y) locked)).
Proof.
  intros Hg Hwf Hin.
  destruct (clear_rows_general grid locked Hg Hwf)
    as [locked' [Hrun [_ [Hfwd Hback]]]].
  assert (Hcols : forall x y, In (x, y) (PyDict.keys locked) ->
                              In y (completed_rows grid) -> 0 <= x < GRID_WIDTH).
  { intros x y Hk _. apply Hin in Hk. apply in_range_iff in Hk. tauto. }
  specialize (Hback Hcols).
  assert (Hfwd' : forall x y c,
       PyDict.get (x, y) locked = Some c -> ~ In y (completed_rows grid) ->
       PyDict.get (x, y + rows_below (completed_rows grid) y) locked' = Some c).
  { intros x y c Hc Hy. exact (Hfwd (x, y) c Hc Hy). }
  assert (Hback' : forall x y' c,
       PyDict.get (x, y') locked' = Some c ->
       exists y, ~ In y (completed_rows grid) /\
                 y' = y + rows_below (completed_rows grid) y /\
                 PyDict.get (x, y) locked = Some c).
  { intros x y' c Hc. destruct (Hback (x, y') c Hc) as [[x0 y0] [Hy0 [Heq Hc0]]].
    unfold moved_to in Heq. cbn [fst snd] in Heq, Hy0.
    injection Heq as -> ->. exists y0. auto. }
  exists locked'. split; [exact Hrun|]. split; [exact Hfwd'|]. split; [exact Hback'|].
  intros Hrows. rewrite Hrows in Hfwd', Hback'. split; [now rewrite Hrows|]. split.
  - intros x y Hy. destruct (PyDict.get (x, y) locked) as [c|] eqn:E.
    + specialize (Hfwd' x y c E). rewrite rows_below_single in Hfwd'.
      replace (y <? 5) with true in Hfwd' by (symmetry; apply Z.ltb_lt; lia).
      apply Hfwd'. cbn. lia.
    + destruct (PyDict.get (x, y + 1) locked') as [c|] eqn:E'; auto.
      destruct (Hback' x (y + 1) c E') as [y0 [Hy0 [Heq Hc0]]].
      rewrite rows_below_single in Heq. cbn in Hy0.
      destruct (Z.ltb_spec y0 5).
      * assert (y0 = y) by lia. subst y0. congruence.
      * lia.
  - intros x y Hy. destruct (PyDict.get (x, y) locked) as [c|] eqn:E.
    + specialize (Hfwd' x y c E). rewrite rows_below_single in Hfwd'.
      replace (y <? 5) with false in Hfwd' by (symmetry; apply Z.ltb_ge; lia).
      rewrite Z.add_0_r in Hfwd'. apply Hfwd'. cbn. lia.
    + destruct (PyDict.get (x, y) locked') as [c|] eqn:E'; auto.
      destruct (Hback' x y c E') as [y0 [Hy0 [Heq Hc0]]].
      rewrite rows_below_single in Heq. cbn in Hy0.
      destruct (Z.ltb_spec y0 5).
      * lia.
      * assert (y0 = y) by lia. subst y0. congruence.
Qed.

Lemma board_row5_wf : PyDict.wf board_row5.
Proof. concrete_wf. Qed.

Lemma board_row5_in_grid : locked_in_grid board_row5.
Proof.
  intros x y H. vm_compute in H.
  repeat (destruct H as [H | H]; [injection H as <- <-; reflexivity|]).
  contradiction.
Qed.

Lemma board_row5_cleared_eq :
  clear_rows (grid_of board_row5) board_row5 = Ok (1, board_row5_cleared).
Proof. vm_compute. reflexivity. Qed.

Lemma board_row5_completed : completed_rows (grid_of board_row5) = [5].
Proof. vm_compute. reflexivity. Qed.

Lemma clear_rows_spec_witness :
  grid_wf (grid_of board_row5) /\ PyDict.wf board_row5 /\
  locked_in_grid board_row5 /\
  completed_rows (grid_of board_row5) = [5] /\
  exists locked',
    clear_rows (grid_of board_row5) board_row5 = Ok (1, locked') /\
    (forall x y, y < 5 ->
       PyDict.get (x, y + 1) locked' = PyDict.get (x, y) board_row5) /\
    (forall x y, 5 < y ->
       PyDict.get (x, y) locked' = PyDict.get (x, y) board_row5).
Proof.
  assert (Hg : grid_wf (grid_of board_row5)) by concrete_grid_wf.
  split; [exact Hg|]. split; [exact board_row5_wf|].
  split; [exact board_row5_in_grid|]. split; [exact board_row5_completed|].
  destruct (clear_rows_spec (grid_of board_row5) board_row5 Hg
              board_row5_wf board_row5_in_grid)
    as [locked' [Hrun [_ [_ Hfive]]]].
  exists locked'. rewrite board_row5_completed in Hrun.
  split; [exact Hrun|]. exact (proj2 (Hfive board_row5_completed)).
Defined.

(** C3, as the claim words it, fails: on a board where row 5 is the only
    completed row and (0, 4) is locked, row 5 is not empty after
    [clear_rows]; the cell of (0, 4) is there. *)
Lemma clear_rows_row5_not_empty :
  completed_rows (grid_of board_row5) = [5] /\
  locked_in_grid board_row5 /\
  ~ (forall locked',
       clear_rows (grid_of board_row5) board_row5 = Ok (1, locked') ->
       forall x, PyDict.get (x, 5) locked' = None).
Proof.
  split; [exact board_row5_completed|]. split; [exact board_row5_in_grid|].
  intros H. specialize (H _ board_row5_cleared_eq 0). discriminate H.
Qed.

(** C4, as the code has it. For every 20 by 10 grid with at least one
    completed row and every locked store, [clear_rows] returns the number
    of completed rows, at least 1, and every locked cell (x, y) of a row
    that is not completed is afterwards at (x, y + shift) with its colour,
    where shift is the number of completed rows below y, i.e. of row index
    greater than y. *)
Theorem clear_rows_shift (grid : Grid) (locked : PyDict.t) :
  grid_wf grid -> PyDict.wf locked -> completed_rows grid <> [] ->
  exists locked',
    clear_rows grid locked = Ok (PyList.len (completed_rows grid), locked') /\
    1 <= PyList.len (completed_rows grid) /\
    forall x y c,
      PyDict.get (x, y) locked = Some c -> ~ In y (completed_rows grid) ->
      PyDict.get (x, y + PyList.len (filter (fun row => y <? row)
                                            (completed_rows grid)))
                 locked' = Some c.
Proof.
  intros Hg Hwf Hne.
  destruct (clear_rows_general grid locked Hg Hwf)
    as [locked' [Hrun [_ [Hfwd _]]]].
  exists locked'. split; [exact Hrun|]. split.
  - destruct (completed_rows grid); [contradiction|].
    unfold PyList.len. cbn [length]. lia.
  - intros x y c Hc Hy. exact (Hfwd (x, y) c Hc Hy).
Qed.

Lemma clear_rows_shift_witness :
  grid_wf (grid_of board_row5) /\ PyDict.wf board_row5 /\
  completed_rows (grid_of board_row5) <> [] /\
  exists locked',
    clear_rows (grid_of board_row5) board_row5 = Ok (1, locked') /\
    PyDict.get (0, 4 + 1) locked' = Some COLOR_T /\
    PyDict.get (0, 7 + 0) locked' = Some COLOR_J.
Proof.
  assert (Hg : grid_wf (grid_of board_row5)) by concrete_grid_wf.
  assert (Hne : completed_rows (grid_of board_row5) <> []).
  { rewrite board_row5_completed. discriminate. }
  split; [exact Hg|]. split; [exact board_row5_wf|]. split; [exact Hne|].
  destruct (clear_rows_shift (grid_of board_row5) board_row5 Hg board_row5_wf Hne)
    as [locked' [Hrun [_ Hmove]]].
  exists locked'. rewrite board_row5_completed in Hrun, Hmove.
  split; [exact Hrun|]. split.
  - apply (Hmove 0 4 COLOR_T); [reflexivity | cbn; lia].
  - apply (Hmove 0 7 COLOR_J); [reflexivity | cbn; lia].
Defined.

(** C4, as the claim words it, fails: with row 5 the only completed row,
    the cell at (0, 7) has one completed row of smaller index and the cell
    at (0, 4) has none, yet (0, 7) is not moved to (0, 8). *)
Lemma clear_rows_shift_not_rows_above :
  rows_above (completed_rows (grid_of board_row5)) 7 = 1 /\
  ~ (forall locked',
       clear_rows (grid_of board_row5) board_row5 = Ok (1, locked') ->
       forall x y c,
         PyDict.get (x, y) board_row5 = Some c ->
         ~ In y (completed_rows (grid_of board_row5)) ->
         PyDict.get (x, y + rows_above (completed_rows (grid_of board_row5)) y)
                    locked' = Some c).
Proof.
  split; [now rewrite board_row5_completed|].
  intros H. specialize (H _ board_row5_cleared_eq 0 7 COLOR_J eq_refl).
  rewrite board_row5_completed in H.
  assert (Hn : ~ In 7 [5]) by (cbn; lia).
  specialize (H Hn). discriminate H.
Qed.

(** ** Scoring at lock resolution *)

(** C7. For every lock event (piece, 20 by 10 grid, locked store) and
    every prior score, the lock resolution returns; the new score is the
    prior score plus 100 when [clear_rows] returned 1, plus 300 for 2, plus
    500 for 3, plus 800 for 4 or more, and the prior score itself for 0. *)
Theorem lock_resolution_score (piece : Piece) (grid : Grid) (locked : PyDict.t)
        (score : Z) :
  grid_wf grid -> PyDict.wf locked ->
  exists locked' score' cleared,
    clear_rows grid (lock_piece piece locked) = Ok (cleared, locked') /\
    lock_resolution piece grid locked score = Ok (locked', score', cleared) /\
    0 <= cleared /\
    (cleared = 0 -> score' = score) /\
    (cleared = 1 -> score' = score + 100) /\
    (cleared = 2 -> score' = score + 300) /\
    (cleared = 3 -> score' = score + 500) /\
    (cleared >= 4 -> score' = score + 800).
Proof.
  intros Hg Hwf.
  destruct (clear_rows_general grid (lock_piece piece locked) Hg
              (lock_piece_wf piece locked Hwf)) as [locked' [Hrun _]].
  exists locked', (update_score (PyList.len (completed_rows grid)) score),
         (PyList.len (completed_rows grid)).
  split; [exact Hrun|]. split.
  - unfold lock_resolution. rewrite Hrun. reflexivity.
  - unfold update_score.
    assert (Hn : 0 <= PyList.len (completed_rows grid))
      by (unfold PyList.len; lia).
    revert Hn. generalize (PyList.len (completed_rows grid)) as n. intros n Hn.
    split; [exact Hn|].
    destruct (Z.eqb_spec n 1), (Z.eqb_spec n 2), (Z.eqb_spec n 3);
      destruct (n >=? 4) eqn:E4; rewrite ?Z.geb_leb in E4;
      try apply Z.leb_le in E4; try apply Z.leb_gt in E4;
      repeat split; intros; lia.
Qed.

Lemma draw_piece_loop_wf (cells : list Cell) (color : Color) :
  forall g, grid_wf g ->
  exists g', draw_piece_loop cells color g = Ok g' /\ grid_wf g'.
Proof.
  induction cells as [|[x y] rest IH]; intros g Hwf; cbn [draw_piece_loop].
  - eauto.
  - destruct ((y >=? 0) &&
              ((0 <=? x) && (x <? GRID_WIDTH) && ((0 <=? y) && (y <? GRID_HEIGHT))))
      eqn:E; [|now apply IH].
    assert (Hr : in_range x y = true).
    { rewrite !andb_true_iff in E. unfold in_range. rewrite !andb_true_iff. tauto. }
    destruct (grid_set_wf g x y color Hwf Hr) as [g1 [Hset Hwf1]].
    rewrite Hset. cbn [bind]. now apply IH.
Qed.

(** The grid of a frame is a 20 by 10 grid. *)
Lemma frame_grid_wf (piece : Piece) (locked : PyDict.t) :
  exists g, frame_grid piece locked = Ok g /\ grid_wf g.
Proof.
  unfold frame_grid. destruct (create_grid_wf locked) as [g [-> Hwf]].
  cbn [bind]. now apply draw_piece_loop_wf.
Qed.

Lemma frame_of_wf (piece : Piece) (locked : PyDict.t) :
  grid_wf (frame_of piece locked).
Proof.
  unfold frame_of. destruct (frame_grid_wf piece locked) as [g [-> Hwf]].
  exact Hwf.
Qed.

Lemma lock_resolution_score_witness :
  grid_wf (frame_of landed_I board_gap) /\ PyDict.wf board_gap /\
  exists locked',
    lock_resolution landed_I (frame_of landed_I board_gap) board_gap 250
    = Ok (locked', 350, 1).
Proof.
  assert (Hg : grid_wf (frame_of landed_I board_gap)) by concrete_grid_wf.
  assert (Hwf : PyDict.wf board_gap) by concrete_wf.
  split; [exact Hg|]. split; [exact Hwf|].
  destruct (lock_resolution_score landed_I (frame_of landed_I board_gap)
              board_gap 250 Hg Hwf)
    as [locked' [score' [cleared [Hclear [Hres [_ [_ [H1 _]]]]]]]].
  assert (Hc : cleared = 1).
  { vm_compute in Hclear. now injection Hclear as <- _. }
  exists locked'. rewrite Hres, (H1 Hc), Hc. reflexivity.
Defined.

(** ** The dense grid is the view of the locked store *)

Lemma nth_error_update_eq {A : Type} (l : list A) (n : nat) (a : A) :
  (n < length l)%nat -> nth_error (PyList.update l n a) n = Some a.
Proof.
  revert n. induction l as [|h t IH]; intros [|n] H; simpl in *; try lia; auto.
  apply IH. lia.
Qed.

Lemma nth_error_update_neq {A : Type} (l : list A) (n m : nat) (a : A) :
  n <> m -> nth_error (PyList.update l n a) m = nth_error l m.
Proof.
  revert n m. induction l as [|h t IH]; intros [|n] [|m] H; simpl; auto.
  contradiction.
Qed.

Lemma grid_set_cells (g : Grid) (x y : Z) (c : Color) :
  grid_wf g -> in_range x y = true ->
  exists g', grid_set g x y c = Ok g' /\ grid_wf g' /\
    cell_at g' x y = Some c /\
    (forall x' y', (x', y') <> (x, y) -> cell_at g' x' y' = cell_at g x' y').
Proof.
  intros Hwf Hr. pose proof (proj1 (in_range_iff x y) Hr) as [Hx Hy].
  destruct (grid_row_wf g y Hwf Hy) as [row [Hget [Hnth Hlen]]].
  destruct (grid_set_wf g x y c Hwf Hr) as [g' [Hset Hwf']].
  exists g'. split; [exact Hset|]. split; [exact Hwf'|].
  unfold grid_set in Hset. rewrite Hget in Hset. cbn [bind] in Hset.
  rewrite setitem_in_range in Hset by lia. cbn [bind] in Hset.
  destruct Hwf as [Hl Hrows].
  rewrite setitem_in_range in Hset
    by (unfold PyList.len; rewrite Hl; unfold GRID_HEIGHT in *; lia).
  injection Hset as <-.
  assert (Hyl : (Z.to_nat y < length g)%nat)
    by (rewrite Hl; unfold GRID_HEIGHT in *; lia).
  assert (Hxl : (Z.to_nat x < length row)%nat)
    by (unfold PyList.len in Hlen; unfold GRID_WIDTH in *; lia).
  split.
  - unfold cell_at. rewrite Hr, nth_error_update_eq by assumption.
    now apply nth_error_update_eq.
  - intros x' y' Hne. unfold cell_at.
    destruct (in_range x' y') eqn:Hr'; [|reflexivity].
    pose proof (proj1 (in_range_iff x' y') Hr') as [Hx' Hy'].
    destruct (Z.eq_dec y' y) as [-> | Hyne].
    + rewrite nth_error_update_eq, Hnth by assumption.
      apply nth_error_update_neq. intros E. apply Hne. f_equal. lia.
    + rewrite nth_error_update_neq by lia. reflexivity.
Qed.

Lemma create_grid_loop_cells (items : list (Cell * Color)) :
  NoDup (map fst items) ->
  forall g, grid_wf g ->
  exists g', create_grid_loop items g = Ok g' /\ grid_wf g' /\
    forall x y, in_range x y = true ->
      cell_at g' x y = match PyDict.get (x, y) items with
                       | Some c => Some c
                       | None => cell_at g x y
                       end.
Proof.
  induction items as [|[[x0 y0] c0] rest IH]; intros Hnd g Hwf.
  - exists g. cbn. auto.
  - cbn [map fst] in Hnd. inversion Hnd as [|? ? Hnot Hnd']; subst.
    cbn [create_grid_loop PyDict.get].
    destruct (in_range x0 y0) eqn:Hr0.
    + destruct (grid_set_cells g x0 y0 c0 Hwf Hr0)
        as [g1 [Hset [Hwf1 [Hhit Hmiss]]]].
      rewrite Hset. cbn [bind].
      destruct (IH Hnd' g1 Hwf1) as [g' [Hrun [Hwf' Hcells]]].
      exists g'. split; [exact Hrun|]. split; [exact Hwf'|].
      intros x y Hr. rewrite (Hcells x y Hr).
      destruct (cell_eqb (x, y) (x0, y0)) eqn:E.
      * apply cell_eqb_spec in E. injection E as -> ->.
        rewrite (proj2 (get_None_keys (x0, y0) rest) Hnot). exact Hhit.
      * destruct (PyDict.get (x, y) rest); [reflexivity|].
        apply Hmiss. intros Heq. rewrite Heq, cell_eqb_refl in E. discriminate.
    + destruct (IH Hnd' g Hwf) as [g' [Hrun [Hwf' Hcells]]].
      exists g'. split; [exact Hrun|]. split; [exact Hwf'|].
      intros x y Hr. rewrite (Hcells x y Hr).
      destruct (cell_eqb (x, y) (x0, y0)) eqn:E; [|reflexivity].
      apply cell_eqb_spec in E. injection E as -> ->. congruence.
Qed.

Lemma empty_grid_cells (x y : Z) :
  in_range x y = true -> cell_at empty_grid x y = Some BLACK.
Proof.
  intros Hr. destruct (grid_get_wf empty_grid x y empty_grid_wf Hr) as [c [_ Hc]].
  rewrite Hc. f_equal. unfold cell_at in Hc. rewrite Hr in Hc.
  destruct (nth_error empty_grid (Z.to_nat y)) as [row|] eqn:Erow; [|discriminate].
  apply nth_error_In in Erow, Hc. unfold empty_grid in Erow.
  apply repeat_spec in Erow. subst row. now apply repeat_spec in Hc.
Qed.

(** Inside the grid, the cell of [create_grid(locked)] at (x, y) is the
    colour stored under (x, y), and [BLACK] when the key is absent. *)
Lemma create_grid_cells (locked : PyDict.t) (x y : Z) :
  PyDict.wf locked -> in_range x y = true ->
  cell_at (grid_of locked) x y =
  Some (match PyDict.get (x, y) locked with
        | Some c => c
        | None => BLACK
        end).
Proof.
  intros Hwf Hr.
  destruct (create_grid_loop_cells locked Hwf empty_grid empty_grid_wf)
    as [g' [Hrun [_ Hcells]]].
  unfold grid_of, create_grid, PyDict.items. rewrite Hrun, (Hcells x y Hr).
  destruct (PyDict.get (x, y) locked); [reflexivity|].
  now apply empty_grid_cells.
Qed.

(** * Further properties of the code *)

(** ** Piece.get_cells *)

Ltac piece_cases p :=
  let x := fresh "x" in let y := fresh "y" in
  let idx := fresh "idx" in let r := fresh "r" in
  let m := fresh "m" in let Hm := fresh "Hm" in let Em := fresh "Em" in
  unfold get_cells;
  assert (Hm : 0 <= piece_rotation p mod 4 < 4) by (apply Z.mod_pos_bound; lia);
  destruct p as [x y idx r]; cbn [piece_rotation piece_x piece_y piece_shape
                                  piece_shape_index] in *;
  remember (r mod 4) as m eqn:Em; clear Em;
  assert (Em : m = 0 \/ m = 1 \/ m = 2 \/ m = 3) by lia;
  destruct idx; destruct Em as [-> | [-> | [-> | ->]]]; cbn.

Lemma get_cells_NoDup (p : Piece) : NoDup (get_cells p).
Proof.
  piece_cases p;
    repeat (constructor;
            [cbn; intros H;
             repeat (destruct H as [H | H]; [injection H; lia|]); exact H|]);
    constructor.
Qed.

(** The occupied cells lie within one column left, two columns right, one
    row above and two rows below the pivot. *)
Lemma get_cells_near_pivot (p : Piece) (x y : Z) :
  In (x, y) (get_cells p) ->
  piece_x p - 1 <= x <= piece_x p + 2 /\ piece_y p - 1 <= y <= piece_y p + 2.
Proof.
  piece_cases p; intros H;
    repeat (destruct H as [H | H]; [injection H as <- <-; lia|]); contradiction.
Qed.

Lemma get_cells_set_y (p : Piece) (d : Z) :
  get_cells (set_y p (piece_y p + d)) =
  map (fun c => (fst c, snd c + d)) (get_cells p).
Proof.
  unfold get_cells, set_y, piece_shape. cbn [piece_rotation piece_x piece_y piece_shape_index].
  rewrite map_map. apply map_ext. intros [dx dy]. cbn. f_equal. lia.
Qed.

Lemma get_cells_set_x (p : Piece) (d : Z) :
  get_cells (set_x p (piece_x p + d)) =
  map (fun c => (fst c + d, snd c)) (get_cells p).
Proof.
  unfold get_cells, set_x, piece_shape. cbn [piece_rotation piece_x piece_y piece_shape_index].
  rewrite map_map. apply map_ext. intros [dx dy]. cbn. f_equal. lia.
Qed.

(** X2. For every piece, [get_cells] yields four pairwise distinct cells,
    the pivot among them, all within columns pivot-1..pivot+2 and rows
    pivot-1..pivot+2; moving the pivot moves every cell by the same
    amount. *)
Theorem get_cells_shape (piece : Piece) (dx dy : Z) :
  length (get_cells piece) = 4%nat /\
  NoDup (get_cells piece) /\
  In (piece_x piece, piece_y piece) (get_cells piece) /\
  (forall x y, In (x, y) (get_cells piece) ->
     piece_x piece - 1 <= x <= piece_x piece + 2 /\
     piece_y piece - 1 <= y <= piece_y piece + 2) /\
  get_cells (set_y (set_x piece (piece_x piece + dx)) (piece_y piece + dy)) =
  map (fun c => (fst c + dx, snd c + dy)) (get_cells piece).
Proof.
  split; [apply get_cells_length|]. split; [apply get_cells_NoDup|].
  split; [apply get_cells_pivot|]. split; [apply get_cells_near_pivot|].
  unfold get_cells, set_y, set_x, piece_shape.
  cbn [piece_rotation piece_x piece_y piece_shape_index].
  rewrite map_map. apply map_ext. intros [ox oy]. cbn. f_equal; lia.
Qed.

Lemma get_cells_shape_witness :
  In (5, -1) (get_cells spawn_T) /\
  piece_x spawn_T - 1 <= 5 <= piece_x spawn_T + 2 /\
  piece_y spawn_T - 1 <= -1 <= piece_y spawn_T + 2.
Proof.
  assert (Hin : In (5, -1) (get_cells spawn_T)) by (cbn; tauto).
  split; [exact Hin|].
  exact (proj1 (proj2 (proj2 (proj2 (get_cells_shape spawn_T 0 0)))) 5 (-1) Hin).
Defined.

(** ** in_bounds *)

Lemma in_bounds_spec (p : Piece) :
  in_bounds p = true <-> forall c, In c (get_cells p) -> ~ out_of_bounds c.
Proof.
  unfold in_bounds. rewrite forallb_forall. split.
  - intros H [x y] Hc. specialize (H (x, y) Hc). cbn in H.
    rewrite negb_true_iff, !orb_false_iff, Z.ltb_ge, !Z.geb_leb, !Z.leb_gt in H.
    unfold out_of_bounds. cbn. lia.
  - intros H [x y] Hc. specialize (H (x, y) Hc). unfold out_of_bounds in H.
    cbn in H. rewrite negb_true_iff, !orb_false_iff, Z.ltb_ge, !Z.geb_leb, !Z.leb_gt.
    lia.
Qed.

Lemma valid_space_in_bounds_true (p : Piece) (g : Grid) :
  valid_space p g = Ok true -> in_bounds p = true.
Proof.
  intros H. apply in_bounds_spec. now apply (valid_space_true_bounds p g).
Qed.

Lemma grid_of_nil : grid_of [] = empty_grid.
Proof. reflexivity. Qed.

Lemma empty_grid_not_filled (x y : Z) : ~ filled_at empty_grid x y.
Proof.
  intros [c [Hc Hne]]. pose proof (cell_at_Some_range _ _ _ _ Hc) as Hr.
  rewrite (empty_grid_cells x y Hr) in Hc. congruence.
Qed.

(** X3. A placement [valid_space] accepts on any grid passes [in_bounds];
    on the grid of the empty store [valid_space] returns exactly what
    [in_bounds] returns. *)
Theorem valid_space_vs_in_bounds (piece : Piece) (grid : Grid) :
  (valid_space piece grid = Ok true -> in_bounds piece = true) /\
  (create_grid [] = Ok empty_grid /\
   valid_space piece empty_grid = Ok (in_bounds piece)).
Proof.
  split; [apply valid_space_in_bounds_true|]. split; [reflexivity|].
  destruct (valid_space_wf piece empty_grid empty_grid_wf) as [b [Hv Hb]].
  rewrite Hv. f_equal. apply eq_true_iff_eq. rewrite Hb, in_bounds_spec.
  rewrite Forall_forall. split.
  - intros H c Hc. apply (H c Hc).
  - intros H c Hc. split; [now apply H|].
    intros [_ Hf]. now apply empty_grid_not_filled in Hf.
Qed.

Lemma valid_space_vs_in_bounds_witness :
  valid_space spawn_T (grid_of board_under_spawn) = Ok true /\
  in_bounds spawn_T = true.
Proof.
  split; [reflexivity|].
  exact (proj1 (valid_space_vs_in_bounds spawn_T (grid_of board_under_spawn)) eq_refl).
Defined.

(** ** create_grid *)

(** X1. For every locked store (keys pairwise distinct), [create_grid]
    raises nothing, also when keys lie outside the grid, and returns a
    grid of 20 rows by 10 columns whose cell at each (x, y) of the grid is
    the colour stored under (x, y), [BLACK] when the key is absent. *)
Theorem create_grid_view (locked : PyDict.t) :
  PyDict.wf locked ->
  exists grid,
    create_grid locked = Ok grid /\ grid_wf grid /\
    (forall x y, 0 <= x < 10 -> 0 <= y < 20 ->
       cell_at grid x y = Some (match PyDict.get (x, y) locked with
                                | Some c => c
                                | None => BLACK
                                end)).
Proof.
  intros Hwf. exists (grid_of locked).
  split; [apply create_grid_grid_of|]. split; [apply grid_of_wf|].
  intros x y Hx Hy. apply create_grid_cells; [exact Hwf|].
  apply in_range_iff. unfold GRID_WIDTH, GRID_HEIGHT. lia.
Qed.

Lemma create_grid_view_witness :
  PyDict.wf board_row5 /\
  exists grid,
    create_grid board_row5 = Ok grid /\
    cell_at grid 0 4 = Some COLOR_T /\ cell_at grid 1 4 = Some BLACK.
Proof.
  split; [exact board_row5_wf|].
  destruct (create_grid_view board_row5 board_row5_wf) as [grid [Hrun [_ Hcells]]].
  exists grid. split; [exact Hrun|]. split.
  - apply (Hcells 0 4); lia.
  - apply (Hcells 1 4); lia.
Defined.

(** ** The grid of a frame *)

Lemma grid_ext (g1 g2 : Grid) :
  grid_wf g1 -> grid_wf g2 ->
  (forall x y, in_range x y = true -> cell_at g1 x y = cell_at g2 x y) ->
  g1 = g2.
Proof.
  intros [Hl1 Hr1] [Hl2 Hr2] Hcells. rewrite Forall_forall in Hr1, Hr2.
  apply nth_error_ext. intros n.
  destruct (nth_error g1 n) as [r1|] eqn:E1.
  - assert (Hn : (n < length g1)%nat) by (apply nth_error_Some; congruence).
    destruct (nth_error g2 n) as [r2|] eqn:E2.
    2:{ apply nth_error_None in E2. lia. }
    f_equal. apply nth_error_ext. intros m.
    pose proof (Hr1 r1 (nth_error_In _ _ E1)) as Hlen1.
    pose proof (Hr2 r2 (nth_error_In _ _ E2)) as Hlen2.
    destruct (Nat.lt_ge_cases m (length r1)) as [Hm | Hm].
    + assert (Hr : in_range (Z.of_nat m) (Z.of_nat n) = true).
      { apply in_range_iff. unfold GRID_WIDTH, GRID_HEIGHT in *. lia. }
      specialize (Hcells _ _ Hr). unfold cell_at in Hcells.
      rewrite Hr, !Nat2Z.id, E1, E2 in Hcells. exact Hcells.
    + rewrite (proj2 (nth_error_None r1 m)) by lia.
      symmetry. apply nth_error_None. lia.
  - apply nth_error_None in E1. symmetry. apply nth_error_None. lia.
Qed.

Lemma draw_piece_loop_cells (cells : list Cell) (color : Color) :
  forall g, grid_wf g ->
  exists g', draw_piece_loop cells color g = Ok g' /\ grid_wf g' /\
    forall x y, in_range x y = true ->
      cell_at g' x y = if cell_mem (x, y) cells then Some color
                       else cell_at g x y.
Proof.
  induction cells as [|[x0 y0] rest IH]; intros g Hwf; cbn [draw_piece_loop].
  - exists g. auto.
  - destruct ((y0 >=? 0) &&
              ((0 <=? x0) && (x0 <? GRID_WIDTH) && ((0 <=? y0) && (y0 <? GRID_HEIGHT))))
      eqn:E.
    + assert (Hr0 : in_range x0 y0 = true).
      { rewrite !andb_true_iff in E. unfold in_range. rewrite !andb_true_iff. tauto. }
      destruct (grid_set_cells g x0 y0 color Hwf Hr0)
        as [g1 [Hset [Hwf1 [Hhit Hmiss]]]].
      rewrite Hset. cbn [bind].
      destruct (IH g1 Hwf1) as [g' [Hrun [Hwf' Hcells]]].
      exists g'. split; [exact Hrun|]. split; [exact Hwf'|].
      intros x y Hr. rewrite (Hcells x y Hr). unfold cell_mem. cbn [existsb].
      destruct (existsb (cell_eqb (x, y)) rest); [now rewrite orb_true_r|].
      rewrite orb_false_r. destruct (cell_eqb (x, y) (x0, y0)) eqn:Eq.
      * apply cell_eqb_spec in Eq. injection Eq as -> ->. exact Hhit.
      * apply Hmiss. intros Heq. rewrite Heq, cell_eqb_refl in Eq. discriminate.
    + destruct (IH g Hwf) as [g' [Hrun [Hwf' Hcells]]].
      exists g'. split; [exact Hrun|]. split; [exact Hwf'|].
      intros x y Hr. rewrite (Hcells x y Hr). unfold cell_mem. cbn [existsb].
      destruct (cell_eqb (x, y) (x0, y0)) eqn:Eq; [|reflexivity].
      apply cell_eqb_spec in Eq. injection Eq as -> ->.
      exfalso. apply in_range_iff in Hr.
      assert (Ht : (y0 >=? 0) &&
              ((0 <=? x0) && (x0 <? GRID_WIDTH) && ((0 <=? y0) && (y0 <? GRID_HEIGHT)))
              = true).
      { rewrite !andb_true_iff, Z.geb_le, !Z.leb_le, !Z.ltb_lt. lia. }
      congruence.
Qed.

Lemma lock_piece_get (p : Piece) (d : PyDict.t) (k : Cell) :
  PyDict.get k (lock_piece p d) =
  if cell_mem k (get_cells p) then Some (piece_color p) else PyDict.get k d.
Proof.
  unfold lock_piece. destruct (cell_mem k (get_cells p)) eqn:E.
  - apply lock_piece_loop_cell. now apply cell_mem_In.
  - apply lock_piece_loop_other. intros H. apply cell_mem_In in H. congruence.
Qed.

Lemma frame_grid_eq (piece : Piece) (locked : PyDict.t) :
  PyDict.wf locked ->
  frame_grid piece locked = create_grid (lock_piece piece locked).
Proof.
  intros Hwf. rewrite create_grid_grid_of. unfold frame_grid.
  rewrite create_grid_grid_of. cbn [bind].
  destruct (draw_piece_loop_cells (get_cells piece) (piece_color piece)
              (grid_of locked) (grid_of_wf locked)) as [g' [Hrun [Hwf' Hcells]]].
  rewrite Hrun. f_equal. apply grid_ext; [exact Hwf' | apply grid_of_wf |].
  intros x y Hr. rewrite (Hcells x y Hr).
  rewrite (create_grid_cells _ x y (lock_piece_wf piece locked Hwf) Hr).
  rewrite lock_piece_get.
  destruct (cell_mem (x, y) (get_cells piece)); [reflexivity|].
  now apply create_grid_cells.
Qed.

(** X4. For every piece and every locked store, the grid the main loop
    builds for a frame (the grid of the store with the cells of the
    current piece drawn over it) is the grid of the store after
    [lock_piece]: the grid handed to [clear_rows] is the dense view of the
    store it clears. *)
Theorem frame_grid_is_locked_grid (piece : Piece) (locked : PyDict.t) :
  PyDict.wf locked ->
  frame_grid piece locked = create_grid (lock_piece piece locked).
Proof. exact (frame_grid_eq piece locked). Qed.

Lemma frame_grid_is_locked_grid_witness :
  PyDict.wf board_gap /\
  frame_grid landed_I board_gap = create_grid (lock_piece landed_I board_gap).
Proof.
  assert (Hwf : PyDict.wf board_gap) by concrete_wf.
  split; [exact Hwf | exact (frame_grid_is_locked_grid landed_I board_gap Hwf)].
Defined.

(** ** lock_piece after valid_space *)

Lemma valid_on_cells (p : Piece) (locked : PyDict.t) :
  valid_on p locked = Ok true ->
  forall c, In c (get_cells p) -> cell_ok (grid_of locked) c.
Proof.
  rewrite valid_on_grid_of. intros Hv.
  destruct (valid_space_wf p (grid_of locked) (grid_of_wf locked)) as [b [Hb Hall]].
  rewrite Hv in Hb. injection Hb as <-.
  apply Forall_forall. now apply Hall.
Qed.

(** X5. Locking a piece that [valid_space] accepts on the grid of the
    store overwrites no coloured cell of rows 0 and below: every key with
    y >= 0 that holds a colour other than [BLACK] is not a cell of the
    piece and holds the same colour after [lock_piece]. *)
Theorem lock_piece_keeps_filled_cells (piece : Piece) (locked : PyDict.t)
        (x y : Z) (c : Color) :
  PyDict.wf locked ->
  valid_on piece locked = Ok true ->
  PyDict.get (x, y) locked = Some c -> c <> BLACK -> 0 <= y ->
  ~ In (x, y) (get_cells piece) /\
  PyDict.get (x, y) (lock_piece piece locked) = Some c.
Proof.
  intros Hwf Hv Hc Hne Hy.
  assert (Hnot : ~ In (x, y) (get_cells piece)).
  { intros Hin. destruct (valid_on_cells piece locked Hv _ Hin) as [Hb Hcol].
    apply Hcol. split; [exact Hy|]. cbn [fst snd].
    exists c. split; [|exact Hne].
    rewrite (create_grid_cells locked x y Hwf), Hc; [reflexivity|].
    now apply (not_out_of_bounds_range (x, y)). }
  split; [exact Hnot|].
  rewrite lock_piece_get.
  destruct (cell_mem (x, y) (get_cells piece)) eqn:E; [|exact Hc].
  apply cell_mem_In in E. contradiction.
Qed.

Lemma lock_piece_keeps_filled_cells_witness :
  PyDict.wf board_under_spawn /\
  valid_on spawn_T board_under_spawn = Ok true /\
  PyDict.get (5, 1) board_under_spawn = Some COLOR_I /\
  COLOR_I <> BLACK /\ 0 <= 1 /\
  ~ In (5, 1) (get_cells spawn_T) /\
  PyDict.get (5, 1) (lock_piece spawn_T board_under_spawn) = Some COLOR_I.
Proof.
  assert (Hwf : PyDict.wf board_under_spawn) by concrete_wf.
  assert (Hne : COLOR_I <> BLACK) by discriminate.
  split; [exact Hwf|]. split; [reflexivity|]. split; [reflexivity|].
  split; [exact Hne|]. split; [lia|].
  apply (lock_piece_keeps_filled_cells spawn_T board_under_spawn 5 1 COLOR_I
           Hwf eq_refl eq_refl Hne). lia.
Defined.

(** ** check_lost after lock_piece *)

Lemma lock_piece_keys (p : Piece) (d : PyDict.t) (k : Cell) :
  In k (PyDict.keys (lock_piece p d)) <-> In k (PyDict.keys d) \/ In k (get_cells p).
Proof.
  split.
  - intros H. apply keys_get_Some in H as [v Hv]. rewrite lock_piece_get in Hv.
    destruct (cell_mem k (get_cells p)) eqn:E.
    + right. now apply cell_mem_In.
    + left. eapply get_Some_keys; eauto.
  - intros H.
    destruct (cell_mem k (get_cells p)) eqn:E.
    + apply (get_Some_keys _ _ (piece_color p)). now rewrite lock_piece_get, E.
    + destruct H as [H | H]; [|apply cell_mem_In in H; congruence].
      apply keys_get_Some in H as [v Hv].
      apply (get_Some_keys _ _ v). now rewrite lock_piece_get, E.
Qed.

(** X6. After [lock_piece], [check_lost] is true exactly when it was true
    before or the piece has a cell with y < 1; in particular locking any
    piece whose pivot is in row 0 or above loses the game. *)
Theorem check_lost_after_lock (piece : Piece) (locked : PyDict.t) :
  (check_lost (lock_piece piece locked) = true <->
   check_lost locked = true \/
   exists x y, In (x, y) (get_cells piece) /\ y < 1) /\
  (piece_y piece < 1 -> check_lost (lock_piece piece locked) = true).
Proof.
  assert (Hiff : check_lost (lock_piece piece locked) = true <->
                 check_lost locked = true \/
                 exists x y, In (x, y) (get_cells piece) /\ y < 1).
  { unfold check_lost. rewrite !check_lost_loop_true. split.
    - intros [x [y [Hin Hy]]]. apply lock_piece_keys in Hin as [Hin | Hin].
      + left. exists x, y. auto.
      + right. exists x, y. auto.
    - intros [[x [y [Hin Hy]]] | [x [y [Hin Hy]]]]; exists x, y;
        (split; [apply lock_piece_keys; auto | exact Hy]). }
  split; [exact Hiff|].
  intros Hy. apply Hiff. right. exists (piece_x piece), (piece_y piece).
  split; [apply get_cells_pivot | exact Hy].
Qed.

Lemma check_lost_after_lock_witness :
  piece_y spawn_T < 1 /\
  check_lost board_under_spawn = false /\
  check_lost (lock_piece spawn_T board_under_spawn) = true.
Proof.
  assert (Hy : piece_y spawn_T < 1) by (cbn; lia).
  split; [exact Hy|]. split; [reflexivity|].
  exact (proj2 (check_lost_after_lock spawn_T board_under_spawn) Hy).
Defined.

(** ** clear_rows: what it keeps *)

Lemma completed_rows_range (g : Grid) (r : Z) :
  In r (completed_rows g) -> 0 <= r < GRID_HEIGHT.
Proof. intros H. now apply completed_rows_In in H. Qed.

Lemma rows_below_bottom (g : Grid) : rows_below (completed_rows g) GRID_HEIGHT = 0.
Proof.
  unfold rows_below. rewrite filter_all_false; [reflexivity|].
  intros r Hr. apply completed_rows_range in Hr. apply Z.ltb_ge. lia.
Qed.

(** A cell above the bottom stays above the bottom when it moves. *)
Lemma moved_above_bottom (g : Grid) (y : Z) :
  y < GRID_HEIGHT -> y + rows_below (completed_rows g) y < GRID_HEIGHT.
Proof.
  intros Hy.
  assert (Hn : ~ In GRID_HEIGHT (completed_rows g)).
  { intros H. apply completed_rows_range in H. lia. }
  pose proof (moved_rows_ordered (completed_rows g) y GRID_HEIGHT
                (completed_rows_NoDup g) Hn Hy) as H.
  rewrite rows_below_bottom in H. lia.
Qed.

(** Two rows that stay and end in the same row are the same row. *)
Lemma moved_rows_injective (rows : list Z) (y1 y2 : Z) :
  NoDup rows -> ~ In y1 rows -> ~ In y2 rows ->
  y1 + rows_below rows y1 = y2 + rows_below rows y2 -> y1 = y2.
Proof.
  intros Hnd H1 H2 Heq.
  destruct (Z.lt_trichotomy y1 y2) as [Hlt | [Heq' | Hgt]]; [|exact Heq'|].
  - pose proof (moved_rows_ordered rows y1 y2 Hnd H2 Hlt). lia.
  - pose proof (moved_rows_ordered rows y2 y1 Hnd H1 Hgt). lia.
Qed.

Lemma store_bounded_cols (locked : PyDict.t) (rows : list Z) :
  store_bounded locked ->
  forall x y, In (x, y) (PyDict.keys locked) -> In y rows -> 0 <= x < GRID_WIDTH.
Proof. intros Hb x y Hk _. now apply (Hb x y). Qed.

(** Where the keys of the store come from after [clear_rows]. *)
Lemma clear_rows_origin (g : Grid) (locked : PyDict.t) :
  grid_wf g -> PyDict.wf locked -> store_bounded locked ->
  exists locked',
    clear_rows g locked = Ok (PyList.len (completed_rows g), locked') /\
    PyDict.wf locked' /\
    (forall x y c, PyDict.get (x, y) locked = Some c ->
                   ~ In y (completed_rows g) ->
                   PyDict.get (x, y + rows_below (completed_rows g) y) locked' = Some c) /\
    (forall x y' c, PyDict.get (x, y') locked' = Some c ->
       exists y, ~ In y (completed_rows g) /\
                 y' = y + rows_below (completed_rows g) y /\
                 PyDict.get (x, y) locked = Some c).
Proof.
  intros Hg Hwf Hb.
  destruct (clear_rows_general g locked Hg Hwf)
    as [locked' [Hrun [Hwf' [Hfwd Hback]]]].
  specialize (Hback (store_bounded_cols locked _ Hb)).
  exists locked'. split; [exact Hrun|]. split; [exact Hwf'|]. split.
  - intros x y c Hc Hy. exact (Hfwd (x, y) c Hc Hy).
  - intros x y' c Hc. destruct (Hback (x, y') c Hc) as [[x0 y0] [Hy0 [Heq Hc0]]].
    unfold moved_to in Heq. cbn [fst snd] in Heq, Hy0.
    injection Heq as -> ->. exists y0. auto.
Qed.

Lemma clear_rows_bounded (grid : Grid) (locked : PyDict.t) :
  grid_wf grid -> PyDict.wf locked -> store_bounded locked ->
  exists cleared locked',
    clear_rows grid locked = Ok (cleared, locked') /\
    0 <= cleared <= 20 /\
    PyDict.wf locked' /\
    store_bounded locked' /\
    (forall x y', In (x, y') (PyDict.keys locked') ->
       exists y, In (x, y) (PyDict.keys locked) /\ y <= y') /\
    (locked_in_grid locked -> locked_in_grid locked').
Proof.
  intros Hg Hwf Hb.
  destruct (clear_rows_origin grid locked Hg Hwf Hb)
    as [locked' [Hrun [Hwf' [_ Hback]]]].
  assert (Horigin : forall x y', In (x, y') (PyDict.keys locked') ->
            exists y, In (x, y) (PyDict.keys locked) /\ y <= y' /\
                      y' < GRID_HEIGHT).
  { intros x y' Hk. apply keys_get_Some in Hk as [c Hc].
    destruct (Hback x y' c Hc) as [y [Hy [-> Hc0]]].
    pose proof (get_Some_keys _ _ _ Hc0) as Hk0.
    exists y. split; [exact Hk0|].
    pose proof (rows_below_nonneg (completed_rows grid) y).
    split; [lia|]. apply moved_above_bottom. now apply (Hb x y). }
  exists (PyList.len (completed_rows grid)), locked'.
  split; [exact Hrun|]. split; [|split; [exact Hwf'|split; [|split]]].
  - pose proof (NoDup_incl_length (completed_rows_NoDup grid)
                  (l' := PyList.range GRID_HEIGHT)) as Hlen.
    unfold PyList.len.
    assert (Hincl : incl (completed_rows grid) (PyList.range GRID_HEIGHT)).
    { intros r Hr. apply range_In. now apply completed_rows_range in Hr. }
    specialize (Hlen Hincl). unfold PyList.range in Hlen.
    rewrite length_map, length_seq in Hlen. unfold GRID_HEIGHT in Hlen. lia.
  - intros x y' Hk. destruct (Horigin x y' Hk) as [y [Hk0 [Hle Hlt]]].
    split; [apply (Hb x y Hk0) | exact Hlt].
  - intros x y' Hk. destruct (Horigin x y' Hk) as [y [Hk0 [Hle _]]]. eauto.
  - intros Hin x y' Hk. destruct (Horigin x y' Hk) as [y [Hk0 [Hle Hlt]]].
    apply Hin in Hk0. apply in_range_iff in Hk0. apply in_range_iff. lia.
Qed.

(** X7. For every 20 by 10 grid and every locked store whose keys have
    their column in the grid and their row above the bottom, [clear_rows]
    returns a store with pairwise distinct keys that has the same bounds;
    every cell of it comes from a cell of the same column at the same or a
    smaller row index (cells only move down), so a store inside the grid
    stays inside the grid. *)
Theorem clear_rows_keeps_bounds (grid : Grid) (locked : PyDict.t) :
  grid_wf grid -> PyDict.wf locked -> store_bounded locked ->
  exists cleared locked',
    clear_rows grid locked = Ok (cleared, locked') /\
    0 <= cleared <= 20 /\
    PyDict.wf locked' /\
    store_bounded locked' /\
    (forall x y', In (x, y') (PyDict.keys locked') ->
       exists y, In (x, y) (PyDict.keys locked) /\ y <= y') /\
    (locked_in_grid locked -> locked_in_grid locked').
Proof. exact (clear_rows_bounded grid locked). Qed.

Lemma board_row5_bounded : store_bounded board_row5.
Proof.
  intros x y H. apply board_row5_in_grid in H. apply in_range_iff in H. lia.
Qed.

Lemma clear_rows_keeps_bounds_witness :
  grid_wf (grid_of board_row5) /\ PyDict.wf board_row5 /\
  store_bounded board_row5 /\
  exists cleared locked',
    clear_rows (grid_of board_row5) board_row5 = Ok (cleared, locked') /\
    PyDict.wf locked' /\ store_bounded locked'.
Proof.
  assert (Hg : grid_wf (grid_of board_row5)) by concrete_grid_wf.
  split; [exact Hg|]. split; [exact board_row5_wf|].
  split; [exact board_row5_bounded|].
  destruct (clear_rows_keeps_bounds (grid_of board_row5) board_row5 Hg
              board_row5_wf board_row5_bounded)
    as [cleared [locked' [Hrun [_ [Hwf' [Hb' _]]]]]].
  exists cleared, locked'. auto.
Defined.

(** X9. [clear_rows] never causes a loss: on a store with bounded keys
    for which [check_lost] is false, it is false after [clear_rows]. *)
Theorem clear_rows_no_new_loss (grid : Grid) (locked : PyDict.t) :
  grid_wf grid -> PyDict.wf locked -> store_bounded locked ->
  check_lost locked = false ->
  exists cleared locked',
    clear_rows grid locked = Ok (cleared, locked') /\
    check_lost locked' = false.
Proof.
  intros Hg Hwf Hb Hlost.
  destruct (clear_rows_origin grid locked Hg Hwf Hb)
    as [locked' [Hrun [_ [_ Hback]]]].
  exists (PyList.len (completed_rows grid)), locked'. split; [exact Hrun|].
  destruct (check_lost locked') eqn:E; [|reflexivity].
  unfold check_lost in *. apply check_lost_loop_true in E as [x [y' [Hk Hy']]].
  apply keys_get_Some in Hk as [c Hc].
  destruct (Hback x y' c Hc) as [y [_ [-> Hc0]]].
  pose proof (rows_below_nonneg (completed_rows grid) y).
  assert (Ht : check_lost_loop (PyDict.keys locked) = true).
  { apply check_lost_loop_true. exists x, y.
    split; [eapply get_Some_keys; eauto | lia]. }
  congruence.
Qed.

Lemma clear_rows_no_new_loss_witness :
  grid_wf (grid_of board_row5) /\ PyDict.wf board_row5 /\
  store_bounded board_row5 /\ check_lost board_row5 = false /\
  exists cleared locked',
    clear_rows (grid_of board_row5) board_row5 = Ok (cleared, locked') /\
    check_lost locked' = false.
Proof.
  assert (Hg : grid_wf (grid_of board_row5)) by concrete_grid_wf.
  split; [exact Hg|]. split; [exact board_row5_wf|].
  split; [exact board_row5_bounded|]. split; [reflexivity|].
  exact (clear_rows_no_new_loss (grid_of board_row5) board_row5 Hg
           board_row5_wf board_row5_bounded eq_refl).
Defined.

(** ** clear_rows: no completed row is left *)

Lemma clear_rows_no_rows (g : Grid) (locked : PyDict.t) :
  grid_wf g -> completed_rows g = [] -> clear_rows g locked = Ok (0, locked).
Proof.
  intros Hg Hrows. unfold clear_rows. rewrite (rows_to_clear_wf g Hg), Hrows.
  reflexivity.
Qed.

(** In the grid of a store, a filled cell is a key with a colour. *)
Lemma filled_at_grid_of (locked : PyDict.t) (x y : Z) :
  PyDict.wf locked ->
  filled_at (grid_of locked) x y ->
  exists c, PyDict.get (x, y) locked = Some c /\ c <> BLACK.
Proof.
  intros Hwf [c [Hc Hne]].
  pose proof (cell_at_Some_range _ _ _ _ Hc) as Hr.
  rewrite (create_grid_cells locked x y Hwf Hr) in Hc. injection Hc as Hc.
  destruct (PyDict.get (x, y) locked) as [c'|]; [|congruence].
  exists c'. split; [reflexivity | congruence].
Qed.

Lemma grid_of_filled_at (locked : PyDict.t) (x y : Z) (c : Color) :
  PyDict.wf locked -> in_range x y = true ->
  PyDict.get (x, y) locked = Some c -> c <> BLACK ->
  filled_at (grid_of locked) x y.
Proof.
  intros Hwf Hr Hc Hne. exists c. split; [|exact Hne].
  now rewrite (create_grid_cells locked x y Hwf Hr), Hc.
Qed.

Lemma clear_rows_own_grid (locked : PyDict.t) :
  PyDict.wf locked -> store_bounded locked -> no_full_row_above locked ->
  exists locked',
    clear_rows (grid_of locked) locked
    = Ok (PyList.len (completed_rows (grid_of locked)), locked') /\
    completed_rows (grid_of locked') = [].
Proof.
  intros Hwf Hb Hneg.
  destruct (clear_rows_origin (grid_of locked) locked (grid_of_wf locked) Hwf Hb)
    as [locked' [Hrun [Hwf' [_ Hback]]]].
  exists locked'. split; [exact Hrun|].
  apply filter_all_false. intros y' Hy'. apply range_In in Hy'.
  destruct (row_completedb (grid_of locked') y') eqn:E; [exfalso | reflexivity].
  apply row_completedb_spec in E.
  set (rows := completed_rows (grid_of locked)) in *.
  assert (Hcol : forall x, 0 <= x < GRID_WIDTH ->
            exists y c, ~ In y rows /\ y' = y + rows_below rows y /\
                        PyDict.get (x, y) locked = Some c /\ c <> BLACK).
  { intros x Hx. destruct (filled_at_grid_of locked' x y' Hwf' (E x Hx)) as [c [Hc Hne]].
    destruct (Hback x y' c Hc) as [y [Hy [Heq Hc0]]]. exists y, c. auto. }
  destruct (Hcol 0) as [y0 [c0 [Hy0 [Heq0 [Hc0 _]]]]];
    [unfold GRID_WIDTH; lia|].
  assert (Hrow : forall x, 0 <= x < GRID_WIDTH ->
            exists c, PyDict.get (x, y0) locked = Some c /\ c <> BLACK).
  { intros x Hx. destruct (Hcol x Hx) as [y [c [Hy [Heq [Hc Hne]]]]].
    assert (y = y0).
    { apply (moved_rows_injective rows); auto.
      - apply completed_rows_NoDup.
      - lia. }
    subst y. eauto. }
  destruct (Z.lt_ge_cases y0 0) as [Hlt | Hge].
  - destruct (Hneg y0 Hlt) as [x [Hx Hnone]].
    destruct (Hrow x Hx) as [c [Hc _]]. congruence.
  - assert (Hlt : y0 < GRID_HEIGHT).
    { apply (Hb 0 y0). eapply get_Some_keys; eauto. }
    apply Hy0. apply completed_rows_In. split; [lia|].
    intros x Hx. destruct (Hrow x Hx) as [c [Hc Hne]].
    apply (grid_of_filled_at locked x y0 c); auto.
    apply in_range_iff. lia.
Qed.

Lemma in_grid_bounded (locked : PyDict.t) :
  locked_in_grid locked -> store_bounded locked /\ no_full_row_above locked.
Proof.
  intros Hin. split.
  - intros x y Hk. apply Hin in Hk. apply in_range_iff in Hk. lia.
  - intros y Hy. exists 0. split; [unfold GRID_WIDTH; lia|].
    apply get_None_keys. intros Hk. apply Hin in Hk. apply in_range_iff in Hk. lia.
Qed.

(** X8. For every locked store inside the grid, [clear_rows] on the grid
    of that store leaves a store whose grid has no completed row, so a
    second [clear_rows] returns 0 and changes nothing. *)
Theorem clear_rows_leaves_no_completed_row (locked : PyDict.t) :
  PyDict.wf locked -> locked_in_grid locked ->
  exists cleared locked' grid grid',
    create_grid locked = Ok grid /\
    clear_rows grid locked = Ok (cleared, locked') /\
    create_grid locked' = Ok grid' /\
    (forall y, 0 <= y < 20 -> ~ row_completed grid' y) /\
    clear_rows grid' locked' = Ok (0, locked').
Proof.
  intros Hwf Hin. destruct (in_grid_bounded locked Hin) as [Hb Hneg].
  destruct (clear_rows_own_grid locked Hwf Hb Hneg) as [locked' [Hrun Hnone]].
  exists (PyList.len (completed_rows (grid_of locked))), locked',
         (grid_of locked), (grid_of locked').
  split; [apply create_grid_grid_of|]. split; [exact Hrun|].
  split; [apply create_grid_grid_of|]. split.
  - intros y Hy Hrow.
    assert (Hiny : In y (completed_rows (grid_of locked'))).
    { apply completed_rows_In. split; [unfold GRID_HEIGHT; lia | exact Hrow]. }
    rewrite Hnone in Hiny. contradiction.
  - apply clear_rows_no_rows; [apply grid_of_wf | exact Hnone].
Qed.

Lemma clear_rows_leaves_no_completed_row_witness :
  PyDict.wf board_row5 /\ locked_in_grid board_row5 /\
  exists cleared locked' grid grid',
    create_grid board_row5 = Ok grid /\
    clear_rows grid board_row5 = Ok (cleared, locked') /\
    create_grid locked' = Ok grid' /\
    (forall y, 0 <= y < 20 -> ~ row_completed grid' y) /\
    clear_rows grid' locked' = Ok (0, locked').
Proof.
  split; [exact board_row5_wf|]. split; [exact board_row5_in_grid|].
  exact (clear_rows_leaves_no_completed_row board_row5 board_row5_wf
           board_row5_in_grid).
Defined.

(** ** try_rotate_with_kicks: the outcome *)

Lemma kick_loop_outcome (ks : list Z) (q : Piece) (g : Grid) :
  grid_wf g ->
  exists ok q', kick_loop ks q g = Ok (ok, q') /\
    (ok = true -> (exists dx, In dx ks /\ q' = set_x q (piece_x q + dx)) /\
                  valid_space q' g = Ok true) /\
    (ok = false -> q' = q).
Proof.
  intros Hwf. induction ks as [|dx rest IH].
  - exists false, q. cbn [kick_loop]. split; [reflexivity|].
    split; [discriminate | reflexivity].
  - rewrite kick_loop_cons.
    destruct (valid_space_wf (set_x q (piece_x q + dx)) g Hwf) as [[|] [Hv _]];
      rewrite Hv.
    + exists true, (set_x q (piece_x q + dx)). split; [reflexivity|].
      split; [|discriminate]. intros _. split; [|exact Hv].
      exists dx. split; [now left | reflexivity].
    + destruct IH as [ok [q' [Hrun [Ht Hf]]]].
      exists ok, q'. split; [exact Hrun|]. split; [|exact Hf].
      intros Hok. destruct (Ht Hok) as [[dx' [Hin Heq]] Hv']. split; [|exact Hv'].
      exists dx'. split; [now right | exact Heq].
Qed.

Lemma try_rotate_outcome (p : Piece) (g : Grid) :
  grid_wf g ->
  exists ok p',
    try_rotate_with_kicks p g = Ok (ok, p') /\
    (ok = true ->
       valid_space p' g = Ok true /\
       piece_y p' = piece_y p /\
       piece_shape_index p' = piece_shape_index p /\
       piece_rotation p' = (piece_rotation p + 1) mod 4 /\
       -2 <= piece_x p' - piece_x p <= 2) /\
    (ok = false -> p' = p).
Proof.
  intros Hwf. rewrite try_rotate_unfold.
  destruct (valid_space_wf (rotated p) g Hwf) as [[|] [Hv _]]; rewrite Hv.
  - exists true, (rotated p). split; [reflexivity|]. split; [|discriminate].
    intros _. split; [exact Hv|]. destruct p as [x y idx r].
    unfold rotated, set_rotation.
    cbn [piece_x piece_y piece_shape_index piece_rotation].
    repeat split; try reflexivity; lia.
  - destruct (kick_loop_outcome kicks (rotated p) g Hwf) as [[|] [q' [Hrun [Ht Hf]]]];
      rewrite Hrun.
    + exists true, q'. split; [reflexivity|]. split; [|discriminate].
      intros _. destruct (Ht eq_refl) as [[dx [Hin ->]] Hv']. split; [exact Hv'|].
      destruct p as [x y idx r]. unfold kicks in Hin. cbn [In] in Hin.
      unfold rotated, set_rotation, set_x.
      cbn [piece_x piece_y piece_shape_index piece_rotation].
      repeat split; try reflexivity; lia.
    + exists false, (set_rotation q' (piece_rotation p)).
      split; [reflexivity|]. split; [discriminate|].
      intros _. rewrite (Hf eq_refl). apply rotated_revert.
Qed.

(** X10. On every 20 by 10 grid a rotation attempt returns; when it
    succeeds, the piece it leaves is validly placed, in the same row and of
    the same shape, with the rotation index advanced by one modulo 4 and
    the pivot at most two columns away; when it fails, the piece is
    unchanged. *)
Theorem try_rotate_with_kicks_outcome (piece : Piece) (grid : Grid) :
  grid_wf grid ->
  exists ok piece',
    try_rotate_with_kicks piece grid = Ok (ok, piece') /\
    (ok = true ->
       valid_space piece' grid = Ok true /\
       piece_y piece' = piece_y piece /\
       piece_shape_index piece' = piece_shape_index piece /\
       piece_rotation piece' = (piece_rotation piece + 1) mod 4 /\
       -2 <= piece_x piece' - piece_x piece <= 2) /\
    (ok = false -> piece' = piece).
Proof. exact (try_rotate_outcome piece grid). Qed.

Lemma try_rotate_with_kicks_outcome_witness :
  grid_wf (grid_of board_kick) /\
  exists ok piece',
    try_rotate_with_kicks kick_T (grid_of board_kick) = Ok (ok, piece') /\
    (ok = true ->
       valid_space piece' (grid_of board_kick) = Ok true /\
       piece_y piece' = piece_y kick_T /\
       piece_shape_index piece' = piece_shape_index kick_T /\
       piece_rotation piece' = (piece_rotation kick_T + 1) mod 4 /\
       -2 <= piece_x piece' - piece_x kick_T <= 2) /\
    (ok = false -> piece' = kick_T).
Proof.
  assert (Hwf : grid_wf (grid_of board_kick)) by concrete_grid_wf.
  split; [exact Hwf|].
  exact (try_rotate_with_kicks_outcome kick_T (grid_of board_kick) Hwf).
Defined.

(** ** Hard drop: where the piece comes to rest *)

Lemma valid_space_loop_false (acc cells : list Cell) :
  valid_space_loop acc cells = false ->
  exists c, In c cells /\ (out_of_bounds c \/ (0 <= snd c /\ ~ In c acc)).
Proof.
  induction cells as [|[x y] rest IH]; cbn [valid_space_loop]; [discriminate|].
  destruct ((x <? 0) || (x >=? GRID_WIDTH) || (y >=? GRID_HEIGHT)) eqn:Eb.
  - intros _. exists (x, y). split; [now left|]. left.
    unfold out_of_bounds. cbn [fst snd].
    rewrite !orb_true_iff, Z.ltb_lt, !Z.geb_le in Eb. lia.
  - destruct ((y >=? 0) && negb (cell_mem (x, y) acc)) eqn:Ec.
    + intros _. exists (x, y). split; [now left|]. right.
      apply andb_true_iff in Ec as [Hy Hm]. rewrite Z.geb_le in Hy.
      apply negb_true_iff in Hm. cbn [snd]. split; [exact Hy|].
      intros Hin. apply cell_mem_In in Hin. congruence.
    + intros H. destruct (IH H) as [c [Hin Hc]]. exists c. split; [now right | exact Hc].
Qed.

Lemma out_of_bounds_dec (c : Cell) : out_of_bounds c \/ ~ out_of_bounds c.
Proof. unfold out_of_bounds. lia. Qed.

(** An invalid placement on a 20 by 10 grid has a cell out of bounds or a
    cell on a filled cell of the grid. *)
Lemma valid_space_false_cell (p : Piece) (g : Grid) :
  grid_wf g -> valid_space p g = Ok false ->
  exists c, In c (get_cells p) /\ (out_of_bounds c \/ collides g c).
Proof.
  intros Hwf. unfold valid_space. rewrite (accepted_wf g Hwf). cbn [bind].
  remember (filter (empty_atb g) all_positions) as acc eqn:Eacc.
  intros H. injection H as H.
  apply valid_space_loop_false in H as [c [Hin [Hb | [Hy Hacc]]]].
  - exists c. auto.
  - exists c. split; [exact Hin|].
    destruct (out_of_bounds_dec c) as [Hb | Hb]; [now left|]. right.
    split; [exact Hy|].
    destruct (empty_or_filled g (fst c) (snd c) Hwf
                (not_out_of_bounds_range c Hb Hy)) as [[He _] | [Hf _]]; [|exact Hf].
    exfalso. apply Hacc. rewrite Eacc. now apply accepted_In.
Qed.

(** The piece the hard drop leaves, from the loop lemma. *)
Lemma hard_drop_result (p : Piece) (locked : PyDict.t) :
  valid_on p locked = Ok true ->
  exists p',
    (forall fuel, (drop_fuel p <= fuel)%nat ->
                  hard_drop fuel p locked = Some (Ok p')) /\
    valid_on p' locked = Ok true /\
    valid_on (set_y p' (piece_y p' + 1)) locked = Ok false /\
    piece_x p' = piece_x p /\
    piece_rotation p' = piece_rotation p /\
    piece_shape_index p' = piece_shape_index p /\
    piece_y p <= piece_y p'.
Proof.
  intros Hv. pose proof (valid_on_pivot_row p locked Hv) as Hy.
  destruct (hard_drop_loop_stops locked (Z.to_nat (GRID_HEIGHT - piece_y p))
              p Hv) as [p' [Hloop [Hbad [Hgood [Hx [Hr [Hi Hlt]]]]]]]; [lia|].
  exists (set_y p' (piece_y p' - 1)). split; [|repeat split; auto].
  - intros fuel Hf. unfold hard_drop. rewrite Hloop; [reflexivity|].
    unfold drop_fuel in Hf. lia.
  - now rewrite set_y_down_up.
  - unfold set_y; cbn [piece_y]; lia.
Qed.

(** A valid placement that is invalid one row further down has a cell in
    the bottom row or a cell right above a coloured cell of the store. *)
Lemma resting_cell (p : Piece) (locked : PyDict.t) :
  PyDict.wf locked ->
  valid_on p locked = Ok true ->
  valid_on (set_y p (piece_y p + 1)) locked = Ok false ->
  exists x y, In (x, y) (get_cells p) /\
    (y = GRID_HEIGHT - 1 \/
     (0 <= y + 1 /\ exists c, PyDict.get (x, y + 1) locked = Some c /\ c <> BLACK)).
Proof.
  intros Hwf Hv Hdown. rewrite valid_on_grid_of in Hdown.
  destruct (valid_space_false_cell _ _ (grid_of_wf locked) Hdown) as [c [Hin Hc]].
  rewrite get_cells_set_y in Hin. apply in_map_iff in Hin as [[x y] [<- Hin]].
  cbn [fst snd] in Hc. exists x, y. split; [exact Hin|].
  destruct (valid_on_cells p locked Hv _ Hin) as [Hb _].
  unfold out_of_bounds in Hb. cbn [fst snd] in Hb.
  destruct Hc as [Hc | [Hy Hf]].
  - left. unfold out_of_bounds in Hc. cbn [fst snd] in Hc. lia.
  - right. cbn [fst snd] in Hy, Hf. split; [exact Hy|].
    now apply filled_at_grid_of.
Qed.

(** X11. A hard drop from a valid placement leaves the piece at rest: one
    of its cells is in the bottom row of the grid, or lies right above a
    coloured cell of the locked store. *)
Theorem hard_drop_rests (piece : Piece) (locked : PyDict.t) :
  PyDict.wf locked ->
  valid_on piece locked = Ok true ->
  exists piece',
    hard_drop (drop_fuel piece) piece locked = Some (Ok piece') /\
    exists x y, In (x, y) (get_cells piece') /\
      (y = 19 \/
       (0 <= y + 1 /\
        exists c, PyDict.get (x, y + 1) locked = Some c /\ c <> BLACK)).
Proof.
  intros Hwf Hv.
  destruct (hard_drop_result piece locked Hv) as [p' [Hrun [Hv' [Hdown _]]]].
  exists p'. split; [apply Hrun; lia|].
  exact (resting_cell p' locked Hwf Hv' Hdown).
Qed.

Lemma board_drop_wf : PyDict.wf board_drop.
Proof. concrete_wf. Qed.

Lemma hard_drop_rests_witness :
  PyDict.wf board_drop /\ valid_on spawn_T board_drop = Ok true /\
  exists piece',
    hard_drop (drop_fuel spawn_T) spawn_T board_drop = Some (Ok piece') /\
    exists x y, In (x, y) (get_cells piece') /\
      (y = 19 \/
       (0 <= y + 1 /\
        exists c, PyDict.get (x, y + 1) board_drop = Some c /\ c <> BLACK)).
Proof.
  split; [exact board_drop_wf|]. split; [reflexivity|].
  exact (hard_drop_rests spawn_T board_drop board_drop_wf eq_refl).
Defined.

(** X12. A hard drop is idempotent: dropping the piece a hard drop left
    returns the same piece. *)
Theorem hard_drop_idempotent (piece : Piece) (locked : PyDict.t) :
  valid_on piece locked = Ok true ->
  exists piece',
    hard_drop (drop_fuel piece) piece locked = Some (Ok piece') /\
    hard_drop (drop_fuel piece') piece' locked = Some (Ok piece').
Proof.
  intros Hv.
  destruct (hard_drop_result piece locked Hv) as [p' [Hrun [Hv' [Hdown _]]]].
  exists p'. split; [apply Hrun; lia|].
  pose proof (valid_on_pivot_row p' locked Hv') as Hy.
  unfold hard_drop, drop_fuel.
  destruct (Z.to_nat (GRID_HEIGHT + 1 - piece_y p')) as [|[|n]] eqn:En;
    [unfold GRID_HEIGHT in *; lia | unfold GRID_HEIGHT in *; lia |].
  cbn [hard_drop_loop]. rewrite Hv', Hdown. now rewrite set_y_up_down.
Qed.

Lemma hard_drop_idempotent_witness :
  valid_on spawn_T board_drop = Ok true /\
  exists piece',
    hard_drop (drop_fuel spawn_T) spawn_T board_drop = Some (Ok piece') /\
    hard_drop (drop_fuel piece') piece' board_drop = Some (Ok piece').
Proof.
  split; [reflexivity | exact (hard_drop_idempotent spawn_T board_drop eq_refl)].
Defined.

(** ** Grids that are not 20 by 10 *)

Lemma getitem_raises {A : Type} (l : list A) (i : Z) :
  (exists a, PyList.getitem l i = Ok a) \/ PyList.getitem l i = Raise IndexError.
Proof.
  unfold PyList.getitem.
  destruct ((0 <=? (if i <? 0 then i + PyList.len l else i)) &&
            ((if i <? 0 then i + PyList.len l else i) <? PyList.len l)); [|now right].
  destruct (nth_error l _); [left; eauto | now right].
Qed.

Lemma getitem_beyond {A : Type} (l : list A) (i : Z) :
  0 <= i -> nth_error l (Z.to_nat i) = None ->
  PyList.getitem l i = Raise IndexError.
Proof.
  intros Hi Hn. unfold PyList.getitem.
  replace (i <? 0) with false by (symmetry; apply Z.ltb_ge; lia).
  rewrite Hn. destruct ((0 <=? i) && (i <? PyList.len l)); reflexivity.
Qed.

Lemma grid_get_raises (g : Grid) (x y : Z) :
  (exists c, grid_get g x y = Ok c) \/ grid_get g x y = Raise IndexError.
Proof.
  unfold grid_get. destruct (getitem_raises g y) as [[row ->] | ->]; cbn [bind].
  - apply getitem_raises.
  - now right.
Qed.

Lemma filterM_raise {A : Type} (f : A -> res bool) (e : exn) (l : list A) :
  (forall a, In a l -> (exists b, f a = Ok b) \/ f a = Raise e) ->
  (exists a, In a l /\ f a = Raise e) ->
  PyList.filterM f l = Raise e.
Proof.
  induction l as [|a t IH]; intros Hall [a0 [Hin He]]; [contradiction|].
  cbn [PyList.filterM].
  destruct (Hall a (or_introl eq_refl)) as [[b Hb] | Hr].
  - rewrite Hb. cbn [bind]. rewrite IH; [reflexivity | |].
    + intros a' Ha'. apply Hall. now right.
    + destruct Hin as [-> | Hin]; [congruence|]. eauto.
  - rewrite Hr. reflexivity.
Qed.

(** X13. When a position of the 20 by 10 area is missing from the grid (a
    row index past the end of the grid, or a column past the end of its
    row), [valid_space] raises [IndexError] whatever the piece; when the
    grid has fewer than 20 rows, so does [clear_rows], whatever the
    store. *)
Theorem malformed_grid_raises (piece : Piece) (locked : PyDict.t) (grid : Grid) :
  ((exists x y, 0 <= x < 10 /\ 0 <= y < 20 /\ cell_at grid x y = None) ->
   valid_space piece grid = Raise IndexError) /\
  ((length grid < 20)%nat -> clear_rows grid locked = Raise IndexError).
Proof.
  split.
  - intros [x [y [Hx [Hy Hnone]]]].
    unfold valid_space.
    replace (accepted grid) with (@Raise (list Cell) IndexError); [reflexivity|].
    symmetry. unfold accepted. apply filterM_raise.
    + intros [x' y'] _. destruct (grid_get_raises grid x' y') as [[c ->] | ->];
        cbn [bind]; eauto.
    + exists (x, y). split.
      * apply all_positions_In, in_range_iff. unfold GRID_WIDTH, GRID_HEIGHT. lia.
      * unfold cell_at in Hnone.
        rewrite (proj2 (in_range_iff x y)) in Hnone
          by (unfold GRID_WIDTH, GRID_HEIGHT; lia).
        unfold grid_get.
        destruct (nth_error grid (Z.to_nat y)) as [row|] eqn:Erow.
        -- destruct (getitem_in_range grid y) as [row' [Hget Hnth]].
           { split; [lia|]. unfold PyList.len.
             assert ((Z.to_nat y < length grid)%nat)
               by (apply nth_error_Some; congruence). lia. }
           rewrite Hget. cbn [bind]. rewrite Erow in Hnth. injection Hnth as <-.
           rewrite getitem_beyond by (auto; lia). reflexivity.
        -- rewrite getitem_beyond by (auto; lia). reflexivity.
  - intros Hlen. unfold clear_rows.
    replace (rows_to_clear grid) with (@Raise (list Z) IndexError); [reflexivity|].
    symmetry. unfold rows_to_clear. apply filterM_raise.
    + intros y _. destruct (getitem_raises grid y) as [[row ->] | ->];
        cbn [bind]; eauto.
    + exists (Z.of_nat (length grid)). split.
      * apply range_In. unfold GRID_HEIGHT. lia.
      * rewrite getitem_beyond; [reflexivity | lia |].
        apply nth_error_None. lia.
Qed.

Lemma malformed_grid_raises_witness :
  (length (@nil (list Color)) < 20)%nat /\
  valid_space spawn_T [] = Raise IndexError /\
  clear_rows [] board_drop = Raise IndexError.
Proof.
  assert (Hlen : (length (@nil (list Color)) < 20)%nat) by (cbn; lia).
  split; [exact Hlen|]. split.
  - apply (proj1 (malformed_grid_raises spawn_T board_drop [])).
    exists 0, 0. split; [lia|]. split; [lia | reflexivity].
  - exact (proj2 (malformed_grid_raises spawn_T board_drop []) Hlen).
Defined.

(** ** The input phase of a frame *)

Lemma moved_validly_refl (locked : PyDict.t) (p : Piece) : moved_validly locked p p.
Proof. unfold moved_validly. split; [now left|]. split; [lia | reflexivity]. Qed.

Lemma moved_validly_trans (locked : PyDict.t) (p1 p2 p3 : Piece) :
  moved_validly locked p1 p2 -> moved_validly locked p2 p3 ->
  moved_validly locked p1 p3.
Proof.
  intros [H1 [Hy1 Hi1]] [H2 [Hy2 Hi2]]. split; [|split; [lia | congruence]].
  destruct H2 as [-> | H2]; [exact H1 | now right].
Qed.

Lemma moved_validly_valid (locked : PyDict.t) (p p' : Piece) :
  moved_validly locked p p' ->
  valid_on p locked = Ok true -> valid_on p' locked = Ok true.
Proof. intros [[-> | H] _] Hv; assumption. Qed.

Lemma valid_on_in_bounds (locked : PyDict.t) (p : Piece) :
  valid_on p locked = Ok true -> in_bounds p = true.
Proof. rewrite valid_on_grid_of. apply valid_space_in_bounds_true. Qed.

Lemma moved_validly_in_bounds (locked : PyDict.t) (p p' : Piece) :
  moved_validly locked p p' -> in_bounds p = true -> in_bounds p' = true.
Proof.
  intros [[-> | H] _] Hb; [assumption | now apply (valid_on_in_bounds locked)].
Qed.

Lemma valid_on_cases (p : Piece) (locked : PyDict.t) :
  valid_on p locked = Ok true \/ valid_on p locked = Ok false.
Proof. destruct (valid_on_total p locked) as [[|] H]; auto. Qed.

Lemma set_x_left_right (p : Piece) :
  set_x (set_x p (piece_x p - 1)) (piece_x (set_x p (piece_x p - 1)) + 1) = p.
Proof. destruct p as [x y idx r]. unfold set_x. cbn. f_equal. lia. Qed.

Lemma set_x_right_left (p : Piece) :
  set_x (set_x p (piece_x p + 1)) (piece_x (set_x p (piece_x p + 1)) - 1) = p.
Proof. destruct p as [x y idx r]. unfold set_x. cbn. f_equal. lia. Qed.

Ltac block_cases p1 locked :=
  rewrite create_grid_grid_of; cbn [bind];
  let Hv := fresh "Hv" in
  destruct (valid_on_cases p1 locked) as [Hv | Hv];
  rewrite valid_on_grid_of in Hv; rewrite Hv; cbn [bind negb].

(** The gravity block lets the piece fall one row when that placement is
    valid, and otherwise leaves it where it was and asks for the lock. *)
Lemma gravity_step_outcome (p : Piece) (locked : PyDict.t) :
  (valid_on (set_y p (piece_y p + 1)) locked = Ok true /\
   gravity_step p locked = Ok (set_y p (piece_y p + 1), false)) \/
  (valid_on (set_y p (piece_y p + 1)) locked = Ok false /\
   gravity_step p locked = Ok (p, true)).
Proof.
  unfold gravity_step. block_cases (set_y p (piece_y p + 1)) locked.
  - left. rewrite valid_on_grid_of. auto.
  - right. rewrite valid_on_grid_of, set_y_up_down. auto.
Qed.

Lemma gravity_step_moved (p : Piece) (locked : PyDict.t) :
  exists p' ch, gravity_step p locked = Ok (p', ch) /\ moved_validly locked p p'.
Proof.
  destruct (gravity_step_outcome p locked) as [[Hv ->] | [Hv ->]].
  - exists (set_y p (piece_y p + 1)), false. split; [reflexivity|].
    split; [now right|]. unfold set_y. cbn. split; [lia | reflexivity].
  - exists p, true. split; [reflexivity | apply moved_validly_refl].
Qed.

Lemma move_down_moved (p : Piece) (locked : PyDict.t) :
  exists p' m, move_down p locked = Ok (p', m) /\ moved_validly locked p p'.
Proof.
  unfold move_down. block_cases (set_y p (piece_y p + 1)) locked.
  - exists (set_y p (piece_y p + 1)), true. split; [reflexivity|].
    split; [right; now rewrite valid_on_grid_of|].
    unfold set_y. cbn. split; [lia | reflexivity].
  - exists p, false. rewrite set_y_up_down. split; [reflexivity|].
    apply moved_validly_refl.
Qed.

Lemma move_left_moved (p : Piece) (locked : PyDict.t) :
  exists p' m, move_left p locked = Ok (p', m) /\ moved_validly locked p p'.
Proof.
  unfold move_left. block_cases (set_x p (piece_x p - 1)) locked.
  - exists (set_x p (piece_x p - 1)), true. split; [reflexivity|].
    split; [right; now rewrite valid_on_grid_of|].
    unfold set_x. cbn. split; [lia | reflexivity].
  - exists p, false. rewrite set_x_left_right. split; [reflexivity|].
    apply moved_validly_refl.
Qed.

Lemma move_right_moved (p : Piece) (locked : PyDict.t) :
  exists p' m, move_right p locked = Ok (p', m) /\ moved_validly locked p p'.
Proof.
  unfold move_right. block_cases (set_x p (piece_x p + 1)) locked.
  - exists (set_x p (piece_x p + 1)), true. split; [reflexivity|].
    split; [right; now rewrite valid_on_grid_of|].
    unfold set_x. cbn. split; [lia | reflexivity].
  - exists p, false. rewrite set_x_right_left. split; [reflexivity|].
    apply moved_validly_refl.
Qed.

Lemma rotate_key_moved (p : Piece) (locked : PyDict.t) :
  exists p' m, rotate_key p locked = Ok (p', m) /\ moved_validly locked p p'.
Proof.
  unfold rotate_key. rewrite create_grid_grid_of. cbn [bind].
  destruct (try_rotate_outcome p (grid_of locked) (grid_of_wf locked))
    as [[|] [p' [Hrun [Ht Hf]]]]; rewrite Hrun; cbn [bind].
  - exists p', true. split; [reflexivity|].
    destruct (Ht eq_refl) as [Hv [Hy [Hi _]]].
    split; [right; now rewrite valid_on_grid_of|]. split; [lia | exact Hi].
  - exists p', false. split; [reflexivity|]. rewrite (Hf eq_refl).
    apply moved_validly_refl.
Qed.

Lemma on_key_moved (pressed rdy : bool)
      (block : Piece -> PyDict.t -> res (Piece * bool))
      (locked : PyDict.t) (st : Piece * bool) :
  (forall p, exists p' m, block p locked = Ok (p', m) /\ moved_validly locked p p') ->
  exists st', on_key pressed rdy block locked st = Ok st' /\
              moved_validly locked (fst st) (fst st').
Proof.
  intros Hblock. unfold on_key. destruct (pressed && rdy).
  - destruct (Hblock (fst st)) as [p' [m [Hrun Hm]]]. rewrite Hrun. cbn [bind].
    exists (p', snd st || m). split; [reflexivity | exact Hm].
  - exists st. split; [reflexivity | apply moved_validly_refl].
Qed.

Lemma in_bounds_up (p : Piece) :
  in_bounds p = true -> in_bounds (set_y p (piece_y p - 1)) = true.
Proof.
  rewrite !in_bounds_spec. intros H c Hc.
  replace (piece_y p - 1) with (piece_y p + -1) in Hc by lia.
  rewrite get_cells_set_y in Hc. apply in_map_iff in Hc as [[x y] [<- Hin]].
  specialize (H _ Hin). unfold out_of_bounds in *. cbn [fst snd] in *. lia.
Qed.

(** The hard drop of a piece that is not validly placed: the loop does not
    run, and the piece ends one row up. *)
Lemma hard_drop_invalid (fuel : nat) (p : Piece) (locked : PyDict.t) :
  valid_on p locked = Ok false ->
  hard_drop (S fuel) p locked = Some (Ok (set_y p (piece_y p - 1))).
Proof. intros Hv. unfold hard_drop. cbn [hard_drop_loop]. now rewrite Hv. Qed.

Lemma handle_keys_outcome (fuel : nat) (rdy : bool) (ks : Keys)
      (p : Piece) (locked : PyDict.t) (change : bool) :
  0 <= piece_y p -> (21 <= fuel)%nat ->
  exists p' change' moved,
    handle_keys fuel rdy ks p locked change = Some (Ok (p', change', moved)) /\
    (in_bounds p = true -> in_bounds p' = true) /\
    (valid_on p locked = Ok true -> valid_on p' locked = Ok true) /\
    piece_shape_index p' = piece_shape_index p /\
    (change' = false -> 0 <= piece_y p').
Proof.
  intros Hy Hfuel. unfold handle_keys.
  destruct (on_key_moved (K_LEFT ks) rdy move_left locked (p, false)
              (fun q => move_left_moved q locked)) as [st1 [H1 M1]].
  destruct (on_key_moved (K_RIGHT ks) rdy move_right locked st1
              (fun q => move_right_moved q locked)) as [st2 [H2 M2]].
  destruct (on_key_moved (K_DOWN ks) rdy move_down locked st2
              (fun q => move_down_moved q locked)) as [st3 [H3 M3]].
  destruct (on_key_moved (K_UP ks) rdy rotate_key locked st3
              (fun q => rotate_key_moved q locked)) as [[p4 moved] [H4 M4]].
  rewrite H1. cbn [bind]. rewrite H2. cbn [bind]. rewrite H3. cbn [bind].
  rewrite H4.
  pose proof (moved_validly_trans _ _ _ _
                (moved_validly_trans _ _ _ _
                   (moved_validly_trans _ _ _ _ M1 M2) M3) M4) as M.
  cbn [fst] in M. destruct M as [Hcase [Hy4 Hi4]].
  assert (Hm : moved_validly locked p p4) by (split; auto).
  destruct (K_SPACE ks && rdy).
  - destruct (valid_on_cases p4 locked) as [Hv | Hv].
    + destruct (hard_drop_result p4 locked Hv)
        as [p5 [Hrun [Hv5 [_ [_ [_ [Hi5 Hy5]]]]]]].
      rewrite Hrun by (unfold drop_fuel, GRID_HEIGHT; lia).
      exists p5, true, true. split; [reflexivity|].
      split; [intros _; now apply (valid_on_in_bounds locked)|].
      split; [auto|]. split; [congruence | discriminate].
    + destruct fuel as [|fuel]; [lia|]. rewrite (hard_drop_invalid fuel p4 locked Hv).
      exists (set_y p4 (piece_y p4 - 1)), true, true. split; [reflexivity|].
      split; [|split; [|split; [exact Hi4 | discriminate]]].
      * intros Hb. apply in_bounds_up. now apply (moved_validly_in_bounds locked p).
      * intros Hvp. pose proof (moved_validly_valid locked p p4 Hm Hvp). congruence.
  - exists p4, change, moved. split; [reflexivity|].
    split; [now apply (moved_validly_in_bounds locked p)|].
    split; [now apply (moved_validly_valid locked p)|].
    split; [exact Hi4 | intros _; lia].
Qed.

Lemma input_phase_outcome (fuel : nat) (inp : Inputs) (p : Piece) (locked : PyDict.t) :
  0 <= piece_y p -> (21 <= fuel)%nat ->
  exists p' change,
    input_phase fuel inp p locked = Some (Ok (p', change)) /\
    (in_bounds p = true -> in_bounds p' = true) /\
    (valid_on p locked = Ok true -> valid_on p' locked = Ok true) /\
    piece_shape_index p' = piece_shape_index p /\
    (change = false -> 0 <= piece_y p').
Proof.
  intros Hy Hfuel. unfold input_phase.
  assert (Hg : exists p1 ch1,
             (if gravity_due inp then gravity_step p locked else Ok (p, false))
             = Ok (p1, ch1) /\ moved_validly locked p p1).
  { destruct (gravity_due inp).
    - apply gravity_step_moved.
    - exists p, false. split; [reflexivity | apply moved_validly_refl]. }
  destruct Hg as [p1 [ch1 [Hrun1 M1]]]. rewrite Hrun1.
  assert (Hy1 : 0 <= piece_y p1) by (destruct M1 as [_ [H _]]; lia).
  destruct (handle_keys_outcome fuel (ready inp) (keys inp) p1 locked ch1 Hy1 Hfuel)
    as [p2 [ch2 [moved [Hrun2 [Hb2 [Hv2 [Hi2 Hy2]]]]]]].
  rewrite Hrun2. exists p2, ch2. split; [reflexivity|].
  split; [|split; [|split; [|exact Hy2]]].
  - intros Hb. apply Hb2. now apply (moved_validly_in_bounds locked p).
  - intros Hv. apply Hv2. now apply (moved_validly_valid locked p).
  - destruct M1 as [_ [_ Hi1]]. congruence.
Qed.

(** X15. The input phase of a frame (gravity when due, then the LEFT,
    RIGHT, DOWN, UP and SPACE blocks) raises nothing and never takes a
    validly placed piece to an invalid placement: whatever the keys, the
    piece it leaves is validly placed and of the same shape. *)
Theorem input_phase_keeps_valid (fuel : nat) (inp : Inputs)
        (piece : Piece) (locked : PyDict.t) :
  valid_on piece locked = Ok true -> 0 <= piece_y piece -> (21 <= fuel)%nat ->
  exists piece' change_piece,
    input_phase fuel inp piece locked = Some (Ok (piece', change_piece)) /\
    valid_on piece' locked = Ok true /\
    piece_shape_index piece' = piece_shape_index piece.
Proof.
  intros Hv Hy Hfuel.
  destruct (input_phase_outcome fuel inp piece locked Hy Hfuel)
    as [p' [ch [Hrun [_ [Hv' [Hi _]]]]]].
  exists p', ch. auto.
Qed.

Lemma input_phase_keeps_valid_witness :
  valid_on spawn_T board_drop = Ok true /\ 0 <= piece_y spawn_T /\ (21 <= 21)%nat /\
  exists piece' change_piece,
    input_phase 21 (mkInputs true true (mkKeys true false true true true) Idx0)
                spawn_T board_drop = Some (Ok (piece', change_piece)) /\
    valid_on piece' board_drop = Ok true /\
    piece_shape_index piece' = piece_shape_index spawn_T.
Proof.
  assert (Hy : 0 <= piece_y spawn_T) by (cbn; lia).
  split; [reflexivity|]. split; [exact Hy|]. split; [lia|].
  apply (input_phase_keeps_valid 21 _ spawn_T board_drop eq_refl Hy). lia.
Defined.

(** ** The landing and the frames *)

Lemma update_score_mono (cleared score0 : Z) : score0 <= update_score cleared score0.
Proof.
  unfold update_score.
  destruct (cleared =? 1), (cleared =? 2), (cleared =? 3), (cleared >=? 4); lia.
Qed.

Lemma below_top_bounded (locked : PyDict.t) :
  store_below_top locked -> store_bounded locked.
Proof. intros H x y Hk. destruct (H x y Hk). lia. Qed.

Lemma in_bounds_cell (p : Piece) (x y : Z) :
  in_bounds p = true -> In (x, y) (get_cells p) ->
  0 <= x < GRID_WIDTH /\ y < GRID_HEIGHT.
Proof.
  intros Hb Hin. apply in_bounds_spec with (c := (x, y)) in Hb; [|exact Hin].
  unfold out_of_bounds in Hb. cbn [fst snd] in Hb. lia.
Qed.

Lemma lock_piece_bounded (p : Piece) (locked : PyDict.t) :
  store_bounded locked -> in_bounds p = true ->
  store_bounded (lock_piece p locked).
Proof.
  intros Hs Hb x y Hk. apply lock_piece_keys in Hk as [Hk | Hk].
  - now apply Hs.
  - now apply (in_bounds_cell p).
Qed.

(** A piece covers at most four neighbouring columns, so it fills no row
    above the grid. *)
Lemma lock_piece_no_full_row_above (p : Piece) (locked : PyDict.t) :
  store_below_top locked -> in_bounds p = true ->
  no_full_row_above (lock_piece p locked).
Proof.
  intros Hs Hb y Hy.
  destruct (in_bounds_cell p _ _ Hb (get_cells_pivot p)) as [Hpx _].
  set (x := if piece_x p <=? 4 then piece_x p + 3 else piece_x p - 2).
  assert (Hx : 0 <= x < GRID_WIDTH /\ (x < piece_x p - 1 \/ piece_x p + 2 < x)).
  { unfold x, GRID_WIDTH in *. destruct (Z.leb_spec (piece_x p) 4); lia. }
  exists x. split; [tauto|]. rewrite lock_piece_get.
  destruct (cell_mem (x, y) (get_cells p)) eqn:E.
  - apply cell_mem_In, get_cells_near_pivot in E. lia.
  - apply get_None_keys. intros Hk. apply Hs in Hk. lia.
Qed.

Lemma check_lost_false_rows (locked : PyDict.t) :
  check_lost locked = false ->
  forall x y, In (x, y) (PyDict.keys locked) -> 1 <= y.
Proof.
  intros Hl x y Hk. destruct (Z.lt_ge_cases y 1) as [Hlt | Hge]; [|exact Hge].
  assert (Ht : check_lost locked = true).
  { unfold check_lost. apply check_lost_loop_true. exists x, y. auto. }
  congruence.
Qed.

Lemma get_new_piece_in_bounds (idx : ShapeIndex) :
  in_bounds (get_new_piece idx) = true /\ piece_y (get_new_piece idx) = 0.
Proof. destruct idx; split; reflexivity. Qed.

Lemma piece_color_not_black (p : Piece) : piece_color p <> BLACK.
Proof. destruct p as [x y [] r]; discriminate. Qed.

Lemma land_outcome (p : Piece) (inp : Inputs) (s : State) :
  PyDict.wf (locked_positions s) ->
  store_below_top (locked_positions s) ->
  in_bounds p = true -> 0 <= score s ->
  (exists idx, next_piece s = get_new_piece idx) ->
  exists s',
    land p (grid_of (lock_piece p (locked_positions s))) inp s = Ok s' /\
    score s <= score s' /\
    PyDict.wf (locked_positions s') /\
    store_bounded (locked_positions s') /\
    (store_coloured (locked_positions s) -> store_coloured (locked_positions s')) /\
    (run s' = true -> state_inv s') /\
    (run s' = false -> run s = false \/ check_lost (locked_positions s') = true).
Proof.
  destruct s as [locked cur nxt sc rn].
  cbn [locked_positions current_piece next_piece score run].
  intros Hwf Hbt Hb Hsc [idx Hnxt].
  set (locked1 := lock_piece p locked).
  assert (Hwf1 : PyDict.wf locked1) by (now apply lock_piece_wf).
  assert (Hb1 : store_bounded locked1)
    by (apply lock_piece_bounded; [now apply below_top_bounded | exact Hb]).
  assert (Hneg1 : no_full_row_above locked1)
    by (now apply lock_piece_no_full_row_above).
  destruct (clear_rows_own_grid locked1 Hwf1 Hb1 Hneg1) as [locked2 [Hrun Hnone]].
  destruct (clear_rows_bounded (grid_of locked1) locked1 (grid_of_wf locked1) Hwf1 Hb1)
    as [cleared [locked2' [Hrun' [_ [Hwf2 [Hb2 _]]]]]].
  rewrite Hrun in Hrun'. injection Hrun' as <- <-.
  assert (Hcol2 : store_coloured locked -> store_coloured locked2).
  { intros Hcol [x y'] c Hc.
    destruct (clear_rows_origin (grid_of locked1) locked1 (grid_of_wf locked1)
                Hwf1 Hb1) as [locked2' [Hrun' [_ [_ Hback]]]].
    rewrite Hrun in Hrun'. injection Hrun' as <-.
    destruct (Hback x y' c Hc) as [y [_ [_ Hc1]]].
    unfold locked1 in Hc1. rewrite lock_piece_get in Hc1.
    destruct (cell_mem (x, y) (get_cells p)).
    - injection Hc1 as <-. apply piece_color_not_black.
    - exact (Hcol _ _ Hc1). }
  unfold land, lock_resolution.
  cbn [locked_positions current_piece next_piece score run].
  fold locked1. rewrite Hrun. cbn [bind].
  eexists. split; [reflexivity|].
  cbn [locked_positions current_piece next_piece score run].
  pose proof (update_score_mono (PyList.len (completed_rows (grid_of locked1))) sc) as Hmono.
  split; [exact Hmono|]. split; [exact Hwf2|]. split; [exact Hb2|].
  split; [exact Hcol2|].
  destruct (check_lost locked2) eqn:Elost.
  - split; [discriminate | auto].
  - split; [|intros ->; now left].
    intros _. unfold state_inv.
    cbn [locked_positions current_piece next_piece score run].
    split; [exact Hwf2|]. split.
    { intros x y Hk. destruct (Hb2 x y Hk) as [Hx Hy].
      pose proof (check_lost_false_rows locked2 Elost x y Hk). lia. }
    split; [exact Hnone|].
    rewrite Hnxt. destruct (get_new_piece_in_bounds idx) as [Hib Hy0].
    split; [exact Hib|]. split; [lia|]. split; [eauto | lia].
Qed.

Lemma frame_step_inv (fuel : nat) (inp : Inputs) (s : State) :
  state_inv s -> (21 <= fuel)%nat ->
  exists s',
    frame_step fuel inp s = Some (Ok s') /\
    score s <= score s' /\
    PyDict.wf (locked_positions s') /\
    store_bounded (locked_positions s') /\
    (store_coloured (locked_positions s) -> store_coloured (locked_positions s')) /\
    (run s' = true -> state_inv s') /\
    (run s' = false -> run s = false \/ check_lost (locked_positions s') = true).
Proof.
  intros [Hwf [Hbt [Hnone [Hb [Hy [Hnxt Hsc]]]]]] Hfuel.
  unfold frame_step.
  destruct (input_phase_outcome fuel inp (current_piece s) (locked_positions s)
              Hy Hfuel) as [p2 [ch2 [Hrun [Hb2 [_ [_ Hy2]]]]]].
  rewrite Hrun.
  rewrite (frame_grid_eq p2 (locked_positions s) Hwf), create_grid_grid_of.
  cbn [bind]. destruct ch2.
  - destruct (land_outcome p2 inp s Hwf Hbt (Hb2 Hb) Hsc Hnxt) as [s' [Hland H]].
    exists s'. rewrite Hland. auto.
  - eexists. split; [reflexivity|].
    cbn [locked_positions current_piece next_piece score run].
    split; [lia|]. split; [exact Hwf|].
    split; [now apply below_top_bounded|]. split; [auto|]. split; [|auto].
    intros _. unfold state_inv.
    cbn [locked_positions current_piece next_piece score run].
    split; [exact Hwf|]. split; [exact Hbt|]. split; [exact Hnone|].
    split; [exact (Hb2 Hb)|]. split; [exact (Hy2 eq_refl)|].
    split; [exact Hnxt | exact Hsc].
Qed.

Lemma initial_state_inv (idx1 idx2 : ShapeIndex) :
  state_inv (initial_state idx1 idx2).
Proof.
  unfold state_inv, initial_state.
  cbn [locked_positions current_piece next_piece score run].
  destruct (get_new_piece_in_bounds idx1) as [Hib Hy].
  split; [constructor|]. split; [intros x y []|]. split; [reflexivity|].
  split; [exact Hib|]. split; [lia|]. split; [eauto | lia].
Qed.

Lemma state_inv_ok (s : State) :
  run s = true -> state_inv s -> store_coloured (locked_positions s) -> state_ok s.
Proof.
  intros Hrun Hinv Hcol. pose proof Hinv as [Hwf [Hbt [_ [_ [_ [_ Hsc]]]]]].
  unfold state_ok. split; [exact Hwf|]. split; [now apply below_top_bounded|].
  split; [exact Hcol|]. split; [exact Hsc|]. split; [auto | congruence].
Qed.

Lemma main_loop_ok (fuel : nat) (inputs : list Inputs) :
  (21 <= fuel)%nat ->
  forall s, state_ok s ->
  exists s', main_loop fuel inputs s = Some (Ok s') /\ state_ok s' /\
             score s <= score s'.
Proof.
  intros Hfuel. induction inputs as [|inp rest IH]; intros s Hok.
  - exists s. cbn [main_loop]. split; [reflexivity|]. split; [exact Hok | lia].
  - cbn [main_loop]. destruct (run s) eqn:Hrun.
    + destruct Hok as [_ [_ [Hcol [Hsc [Hinv _]]]]].
      destruct (frame_step_inv fuel inp s (Hinv Hrun) Hfuel)
        as [s1 [Hstep [Hmono [Hwf1 [Hb1 [Hcol1 [Hinv1 Hlost1]]]]]]].
      rewrite Hstep.
      assert (Hok1 : state_ok s1).
      { unfold state_ok. split; [exact Hwf1|]. split; [exact Hb1|].
        split; [exact (Hcol1 Hcol)|]. split; [lia|]. split; [exact Hinv1|].
        intros Hr. destruct (Hlost1 Hr) as [H | H]; [congruence | exact H]. }
      destruct (IH s1 Hok1) as [s' [Hloop [Hok' Hmono']]].
      exists s'. split; [exact Hloop|]. split; [exact Hok' | lia].
    + exists s. split; [reflexivity|]. split; [exact Hok | lia].
Qed.

(** X14. From the state [main] starts in, whatever shape indices are
    drawn and whatever the inputs of the frames, the loop raises nothing
    (no [IndexError] from a grid, no [KeyError] from the store).  In the
    state it reaches the keys of the store are pairwise distinct, with
    column in 0..9 and row below 20, no stored colour is [BLACK], and the
    score is not negative; while
    [run] is true every key is in rows 1..19, the grid of the store has no
    completed row and the current piece passes [in_bounds]; once [run] is
    false [check_lost] holds of the store. *)
Theorem main_loop_safe (fuel : nat) (inputs : list Inputs) (idx1 idx2 : ShapeIndex) :
  (21 <= fuel)%nat ->
  exists s,
    main_loop fuel inputs (initial_state idx1 idx2) = Some (Ok s) /\
    PyDict.wf (locked_positions s) /\
    (forall x y, In (x, y) (PyDict.keys (locked_positions s)) ->
                 0 <= x < 10 /\ y < 20) /\
    (forall k c, PyDict.get k (locked_positions s) = Some c -> c <> BLACK) /\
    0 <= score s /\
    (run s = true ->
       (forall x y, In (x, y) (PyDict.keys (locked_positions s)) -> 1 <= y) /\
       (forall y, 0 <= y < 20 -> ~ row_completed (grid_of (locked_positions s)) y) /\
       in_bounds (current_piece s) = true) /\
    (run s = false -> check_lost (locked_positions s) = true).
Proof.
  intros Hfuel.
  assert (Hcol0 : store_coloured (locked_positions (initial_state idx1 idx2))).
  { intros k c Hc. discriminate Hc. }
  destruct (main_loop_ok fuel inputs Hfuel (initial_state idx1 idx2)
              (state_inv_ok (initial_state idx1 idx2) eq_refl
                 (initial_state_inv idx1 idx2) Hcol0))
    as [s [Hloop [[Hwf [Hb [Hcol [Hsc [Hinv Hlost]]]]] _]]].
  exists s. split; [exact Hloop|]. split; [exact Hwf|]. split; [exact Hb|].
  split; [exact Hcol|]. split; [exact Hsc|]. split; [|exact Hlost].
  intros Hrun. destruct (Hinv Hrun) as [_ [Hbt [Hnone [Hib _]]]].
  split; [|split; [|exact Hib]].
  - intros x y Hk. destruct (Hbt x y Hk). lia.
  - intros y Hy Hrow.
    assert (Hin : In y (completed_rows (grid_of (locked_positions s)))).
    { apply completed_rows_In. split; [unfold GRID_HEIGHT; lia | exact Hrow]. }
    rewrite Hnone in Hin. contradiction.
Qed.

Lemma main_loop_safe_witness :
  (21 <= 21)%nat /\
  exists s,
    main_loop 21
      [mkInputs false true (mkKeys false false false false true) Idx1;
       mkInputs true true (mkKeys true false false true false) Idx2;
       mkInputs true true (mkKeys false false false false true) Idx3]
      (initial_state Idx0 Idx0) = Some (Ok s) /\
    PyDict.wf (locked_positions s) /\
    0 <= score s /\
    (run s = false -> check_lost (locked_positions s) = true).
Proof.
  split; [lia|].
  destruct (main_loop_safe 21
      [mkInputs false true (mkKeys false false false false true) Idx1;
       mkInputs true true (mkKeys true false false true false) Idx2;
       mkInputs true true (mkKeys false false false false true) Idx3]
      Idx0 Idx0 (le_n 21)) as [s [Hloop [Hwf [_ [_ [Hsc [_ Hlost]]]]]]].
  exists s. auto.
Defined.

(** ** clear_rows: the cells are conserved *)

Lemma row_cells_In (rows : list Z) (x y : Z) :
  In (x, y) (row_cells rows) <-> In y rows /\ 0 <= x < GRID_WIDTH.
Proof.
  unfold row_cells. rewrite in_flat_map. split.
  - intros [y' [Hy Hin]]. apply in_map_iff in Hin as [x' [[= <- <-] Hx]].
    apply range_In in Hx. auto.
  - intros [Hy Hx]. exists y. split; [exact Hy|].
    apply in_map_iff. exists x. split; [reflexivity | now apply range_In].
Qed.

Lemma row_cells_NoDup (rows : list Z) : NoDup rows -> NoDup (row_cells rows).
Proof.
  induction rows as [|y rest IH]; intros Hnd; cbn [row_cells flat_map].
  - constructor.
  - inversion Hnd as [|? ? Hnot Hnd']; subst. apply NoDup_app.
    + apply Injective_map_NoDup; [|apply range_NoDup].
      intros a b [= H]. exact H.
    + now apply IH.
    + intros [x y'] Hin Hin'. apply in_map_iff in Hin as [x' [[= <- <-] _]].
      apply row_cells_In in Hin' as [Hy _]. contradiction.
Qed.

Lemma row_cells_length (rows : list Z) :
  Z.of_nat (length (row_cells rows)) = GRID_WIDTH * PyList.len rows.
Proof.
  unfold PyList.len, row_cells. induction rows as [|y rest IH]; cbn [flat_map].
  - reflexivity.
  - rewrite length_app, length_map.
    replace (length (PyList.range GRID_WIDTH)) with 10%nat by reflexivity.
    cbn [length]. unfold GRID_WIDTH in *.
    rewrite Nat2Z.inj_add. etransitivity; [apply f_equal; exact IH|]. lia.
Qed.

Lemma keys_outside_In (rows : list Z) (locked : PyDict.t) (k : Cell) :
  In k (keys_outside rows locked) <->
  In k (PyDict.keys locked) /\ ~ In (snd k) rows.
Proof.
  unfold keys_outside. rewrite filter_In, negb_true_iff.
  split; intros [Hk Hr]; split; auto.
  - intros Hin. assert (Ht : existsb (Z.eqb (snd k)) rows = true).
    { apply existsb_exists. exists (snd k). split; [exact Hin | apply Z.eqb_refl]. }
    congruence.
  - destruct (existsb (Z.eqb (snd k)) rows) eqn:E; [|reflexivity].
    apply existsb_exists in E as [r [Hin Heq]]. apply Z.eqb_eq in Heq. subst r.
    contradiction.
Qed.

Lemma moved_to_inj (rows : list Z) (k1 k2 : Cell) :
  NoDup rows -> ~ In (snd k1) rows -> ~ In (snd k2) rows ->
  moved_to rows k1 = moved_to rows k2 -> k1 = k2.
Proof.
  destruct k1 as [x1 y1], k2 as [x2 y2]. unfold moved_to. cbn [fst snd].
  intros Hnd H1 H2 [= -> Hy]. f_equal.
  now apply (moved_rows_injective rows).
Qed.

Lemma clear_rows_count (locked : PyDict.t) :
  PyDict.wf locked -> locked_in_grid locked ->
  exists locked',
    clear_rows (grid_of locked) locked
    = Ok (PyList.len (completed_rows (grid_of locked)), locked') /\
    PyList.len locked' + GRID_WIDTH * PyList.len (completed_rows (grid_of locked))
    = PyList.len locked.
Proof.
  intros Hwf Hin. destruct (in_grid_bounded locked Hin) as [Hb _].
  destruct (clear_rows_origin (grid_of locked) locked (grid_of_wf locked) Hwf Hb)
    as [locked' [Hrun [Hwf' [Hfwd Hback]]]].
  exists locked'. split; [exact Hrun|].
  set (rows := completed_rows (grid_of locked)) in *.
  pose proof (completed_rows_NoDup (grid_of locked)) as Hnd. fold rows in Hnd.
  assert (Hgood_nd : NoDup (keys_outside rows locked)).
  { unfold keys_outside. apply NoDup_filter. exact Hwf. }
  assert (P1 : Permutation (PyDict.keys locked)
                           (keys_outside rows locked ++ row_cells rows)).
  { apply NoDup_Permutation; [exact Hwf | |].
    - apply NoDup_app; [exact Hgood_nd | now apply row_cells_NoDup |].
      intros [x y] Hk Hc. apply keys_outside_In in Hk as [_ Hk].
      apply row_cells_In in Hc as [Hc _]. contradiction.
    - intros [x y]. rewrite in_app_iff, keys_outside_In, row_cells_In.
      cbn [snd]. split.
      + intros Hk. destruct (in_dec Z.eq_dec y rows) as [Hy | Hy]; [|now left].
        right. split; [exact Hy|]. apply Hin in Hk. apply in_range_iff in Hk. tauto.
      + intros [[Hk _] | [Hy Hx]]; [exact Hk|].
        apply completed_rows_In in Hy as [_ Hrow].
        destruct (filled_at_grid_of locked x y Hwf (Hrow x Hx)) as [c [Hc _]].
        eapply get_Some_keys; eauto. }
  assert (P2 : Permutation (PyDict.keys locked')
                           (map (moved_to rows) (keys_outside rows locked))).
  { apply NoDup_Permutation; [exact Hwf' | |].
    - apply Injective_map_NoDup_in; [|exact Hgood_nd].
      intros k1 k2 H1 H2. apply keys_outside_In in H1 as [_ H1].
      apply keys_outside_In in H2 as [_ H2]. now apply moved_to_inj.
    - intros [x y']. rewrite in_map_iff. split.
      + intros Hk. apply keys_get_Some in Hk as [c Hc].
        destruct (Hback x y' c Hc) as [y [Hy [-> Hc0]]].
        exists (x, y). split; [reflexivity|]. apply keys_outside_In.
        split; [eapply get_Some_keys; eauto | exact Hy].
      + intros [[x0 y0] [Heq Hk]]. apply keys_outside_In in Hk as [Hk Hy].
        cbn [snd] in Hy. unfold moved_to in Heq. cbn [fst snd] in Heq.
        injection Heq as <- <-. apply keys_get_Some in Hk as [c Hc].
        eapply get_Some_keys. exact (Hfwd x0 y0 c Hc Hy). }
  apply Permutation_length in P1, P2.
  rewrite length_app in P1. rewrite length_map in P2.
  unfold PyDict.keys in P1, P2. rewrite length_map in P1, P2.
  pose proof (row_cells_length rows) as Hlen.
  unfold PyList.len in *. lia.
Qed.

(** X17. For every locked store inside the grid, [clear_rows] on the grid
    of that store conserves the cells: the store it leaves has exactly 10
    keys fewer for each row it reports cleared. *)
Theorem clear_rows_conserves_cells (locked : PyDict.t) :
  PyDict.wf locked -> locked_in_grid locked ->
  exists cleared locked' grid,
    create_grid locked = Ok grid /\
    clear_rows grid locked = Ok (cleared, locked') /\
    PyList.len locked' + 10 * cleared = PyList.len locked.
Proof.
  intros Hwf Hin. destruct (clear_rows_count locked Hwf Hin) as [locked' [Hrun Hlen]].
  exists (PyList.len (completed_rows (grid_of locked))), locked', (grid_of locked).
  split; [apply create_grid_grid_of|]. split; [exact Hrun | exact Hlen].
Qed.

Lemma clear_rows_conserves_cells_witness :
  PyDict.wf board_row5 /\ locked_in_grid board_row5 /\
  exists cleared locked' grid,
    create_grid board_row5 = Ok grid /\
    clear_rows grid board_row5 = Ok (cleared, locked') /\
    PyList.len locked' + 10 * cleared = PyList.len board_row5.
Proof.
  split; [exact board_row5_wf|]. split; [exact board_row5_in_grid|].
  exact (clear_rows_conserves_cells board_row5 board_row5_wf board_row5_in_grid).
Defined.

(** ** Runs of the loop *)

Lemma main_loop_stopped (fuel : nat) (inputs : list Inputs) (s : State) :
  run s = false -> main_loop fuel inputs s = Some (Ok s).
Proof. intros Hr. destruct inputs; cbn [main_loop]; [|rewrite Hr]; reflexivity. Qed.

Lemma main_loop_app (fuel : nat) (in1 in2 : list Inputs) (s : State) :
  main_loop fuel (in1 ++ in2) s =
  match main_loop fuel in1 s with
  | Some (Ok s1) => main_loop fuel in2 s1
  | other => other
  end.
Proof.
  revert s. induction in1 as [|inp rest IH]; intros s; cbn [app main_loop].
  - reflexivity.
  - destruct (run s) eqn:Hr.
    + destruct (frame_step fuel inp s) as [[s'|e]|]; [apply IH | reflexivity | reflexivity].
    + symmetry. now apply main_loop_stopped.
Qed.

(** X16. Runs compose and the score never decreases: from the state
    [main] starts in, the run over the frames [in1 ++ in2] ends where the
    run over [in2] ends when started from the end of the run over [in1];
    the score at the end of the longer run is at least the score at the
    end of the shorter one; and once [run] is false no further frame
    changes the state. *)
Theorem main_loop_extends (fuel : nat) (in1 in2 : list Inputs) (idx1 idx2 : ShapeIndex) :
  (21 <= fuel)%nat ->
  exists s1 s2,
    main_loop fuel in1 (initial_state idx1 idx2) = Some (Ok s1) /\
    main_loop fuel (in1 ++ in2) (initial_state idx1 idx2) = Some (Ok s2) /\
    main_loop fuel in2 s1 = Some (Ok s2) /\
    score s1 <= score s2 /\
    (run s1 = false -> s2 = s1).
Proof.
  intros Hfuel.
  assert (Hcol0 : store_coloured (locked_positions (initial_state idx1 idx2))).
  { intros k c Hc. discriminate Hc. }
  destruct (main_loop_ok fuel in1 Hfuel (initial_state idx1 idx2)
              (state_inv_ok (initial_state idx1 idx2) eq_refl
                 (initial_state_inv idx1 idx2) Hcol0))
    as [s1 [Hloop1 [Hok1 _]]].
  destruct (main_loop_ok fuel in2 Hfuel s1 Hok1) as [s2 [Hloop2 [_ Hmono]]].
  exists s1, s2. split; [exact Hloop1|]. split; [|split; [exact Hloop2|split]].
  - now rewrite main_loop_app, Hloop1.
  - exact Hmono.
  - intros Hr. rewrite (main_loop_stopped fuel in2 s1 Hr) in Hloop2. congruence.
Qed.

Lemma main_loop_extends_witness :
  (21 <= 21)%nat /\
  exists s1 s2,
    main_loop 21 [mkInputs false true (mkKeys false false false false true) Idx1]
              (initial_state Idx0 Idx0) = Some (Ok s1) /\
    main_loop 21 [mkInputs false true (mkKeys false false false false true) Idx1;
                  mkInputs true true (mkKeys true false false true false) Idx2]
              (initial_state Idx0 Idx0) = Some (Ok s2) /\
    score s1 <= score s2.
Proof.
  split; [lia|].
  destruct (main_loop_extends 21
              [mkInputs false true (mkKeys false false false false true) Idx1]
              [mkInputs true true (mkKeys true false false true false) Idx2]
              Idx0 Idx0 (le_n 21)) as [s1 [s2 [H1 [H2 [_ [Hm _]]]]]].
  exists s1, s2. auto.
Defined.

(** ** LEFT and RIGHT undo each other *)

Lemma move_left_cases (p : Piece) (locked : PyDict.t) :
  (valid_on (set_x p (piece_x p - 1)) locked = Ok true /\
   move_left p locked = Ok (set_x p (piece_x p - 1), true)) \/
  (valid_on (set_x p (piece_x p - 1)) locked = Ok false /\
   move_left p locked = Ok (p, false)).
Proof.
  unfold move_left. block_cases (set_x p (piece_x p - 1)) locked.
  - left. rewrite valid_on_grid_of. auto.
  - right. rewrite valid_on_grid_of, set_x_left_right. auto.
Qed.

Lemma move_right_cases (p : Piece) (locked : PyDict.t) :
  (valid_on (set_x p (piece_x p + 1)) locked = Ok true /\
   move_right p locked = Ok (set_x p (piece_x p + 1), true)) \/
  (valid_on (set_x p (piece_x p + 1)) locked = Ok false /\
   move_right p locked = Ok (p, false)).
Proof.
  unfold move_right. block_cases (set_x p (piece_x p + 1)) locked.
  - left. rewrite valid_on_grid_of. auto.
  - right. rewrite valid_on_grid_of, set_x_right_left. auto.
Qed.

(** X18. For a validly placed piece, a LEFT block that moved the piece is
    undone by a RIGHT block, and a RIGHT block that moved it is undone by
    a LEFT block: the second block moves too and gives back the piece. *)
Theorem left_right_round_trip (piece piece' : Piece) (locked : PyDict.t) :
  valid_on piece locked = Ok true ->
  (move_left piece locked = Ok (piece', true) ->
   move_right piece' locked = Ok (piece, true)) /\
  (move_right piece locked = Ok (piece', true) ->
   move_left piece' locked = Ok (piece, true)).
Proof.
  intros Hv. split; intros Hmove.
  - destruct (move_left_cases piece locked) as [[_ H] | [_ H]];
      rewrite H in Hmove; [|discriminate].
    injection Hmove as <-.
    destruct (move_right_cases (set_x piece (piece_x piece - 1)) locked)
      as [[_ H'] | [Hv' _]].
    + rewrite H'. now rewrite set_x_left_right.
    + rewrite set_x_left_right in Hv'. congruence.
  - destruct (move_right_cases piece locked) as [[_ H] | [_ H]];
      rewrite H in Hmove; [|discriminate].
    injection Hmove as <-.
    destruct (move_left_cases (set_x piece (piece_x piece + 1)) locked)
      as [[_ H'] | [Hv' _]].
    + rewrite H'. now rewrite set_x_right_left.
    + rewrite set_x_right_left in Hv'. congruence.
Qed.

Lemma left_right_round_trip_witness :
  valid_on spawn_T board_drop = Ok true /\
  move_left spawn_T board_drop = Ok (set_x spawn_T 4, true) /\
  move_right (set_x spawn_T 4) board_drop = Ok (spawn_T, true).
Proof.
  split; [reflexivity|]. split; [reflexivity|].
  exact (proj1 (left_right_round_trip spawn_T (set_x spawn_T 4) board_drop eq_refl)
               eq_refl).
Defined.
